(** * The LES subprotocol session of ethereumjs-devp2p ([src/les/index.js])

    A shallow embedding of the [LES] class: its message-code table, its two
    protocol descriptors, the status handshake ([sendStatus],
    [_handleStatus]) and the dispatch of inbound and outbound messages
    ([_handleMessage], [sendMessage]).

    JavaScript values are modelled by the small universe the class can
    actually reach: decoded RLP items (byte strings and nested lists), the
    results of indexing such items, and [null].  Methods run in a monad that
    threads the session object, collects the calls made to collaborators
    (transport, event listeners, timer) and may throw; a throw keeps the
    mutations performed before it, as in JavaScript.

    Conventions.  The callbacks of the collaborators ([_send], the event
    listeners, [disconnect]) return normally and do not call back into the
    session.  [sendStatus] receives a number and four Buffers, [sendMessage] a
    value that RLP can encode.  The output of [debug] is not modelled; the
    template literals passed to it are evaluated before the call, and what
    they can throw is. *)

From Stdlib Require Import ZArith List Bool String Lia.
From Stdlib Require Import Strings.Byte.
Import ListNotations.
Local Open Scope string_scope.
Local Open Scope list_scope.
Local Open Scope Z_scope.
#[local] Set Warnings "-register-all".

(* ================================================================== *)
(** ** Values *)

(** A [Buffer]. *)
Definition bytes := list byte.

(** What [rlp.decode] returns: a [Buffer] or an [Array] of such values. *)
Inductive item : Type :=
| Buf (b : bytes)
| Arr (l : list item).

(** The JavaScript values handled by the session: [null], [undefined], a
    number (a [Buffer] indexed at a byte), or a decoded item. *)
Inductive value : Type :=
| Null
| Undefined
| Num (n : Z)
| Item (i : item).

(** [x[i]]: on an [Array] the element or [undefined]; on a [Buffer] the
    byte as a number or [undefined]. *)
Definition index (x : item) (i : nat) : value :=
  match x with
  | Arr l => match nth_error l i with Some e => Item e | None => Undefined end
  | Buf b => match nth_error b i with
             | Some e => Num (Z.of_N (Byte.to_N e))
             | None => Undefined
             end
  end.

Fixpoint bytes_eqb (a b : bytes) : bool :=
  match a, b with
  | [], [] => true
  | x :: a', y :: b' => Byte.eqb x y && bytes_eqb a' b'
  | _, _ => false
  end.

(** The errors the class throws or lets through. *)
Inductive error : Type :=
| DecodeError                          (* thrown by rlp.decode *)
| AssertionError (msg : string)        (* thrown by assertEq, labelled msg *)
| TypeError                            (* property of undefined, Buffer.from(undefined) *)
| RangeError                           (* (number).toString('hex') *)
| ErrUseSendStatus                     (* 'Please send status message through .sendStatus' *)
| ErrNotAllowed (code version : Z)     (* `Code ${code} not allowed with version ${version}` *)
| ErrUnknownCode (code : Z).           (* `Unknown code ${code}` *)

(** The object passed to the listeners of ['status']. *)
Record status_summary : Type := {
  networkId : value;
  headTd : bytes;
  headHash : bytes;
  headNum : bytes;
  genesisHash : bytes
}.

(** The argument of [sendStatus]. *)
Record status_arg : Type := {
  arg_networkId : Z;
  arg_headTd : bytes;
  arg_headHash : bytes;
  arg_headNum : bytes;
  arg_genesisHash : bytes
}.

Inductive disconnect_reason : Type := TIMEOUT.

(** Calls made by the session to its collaborators, in program order. *)
Inductive effect : Type :=
| Send (code : Z) (data : bytes)              (* this._send(code, data) *)
| EmitStatus (s : status_summary)             (* this.emit('status', s) *)
| EmitMessage (code : Z) (payload : item)     (* this.emit('message', code, payload) *)
| ClearTimeout                                (* clearTimeout(this._statusTimeoutId) *)
| Disconnect (r : disconnect_reason).         (* this._peer.disconnect(r) *)

(** The timer behind [_statusTimeoutId]. *)
Inductive timer : Type := Armed | Cleared | Fired.

(** [clearTimeout]: cancels a pending timer, does nothing otherwise. *)
Definition clearTimeout (t : timer) : timer :=
  match t with Armed => Cleared | _ => t end.

(** The fields of a [LES] instance ([_peer] and [_send] are collaborators,
    seen through [effect]). *)
Record LES : Type := {
  _version : Z;
  _status : option item;
  _peerStatus : option item;
  _statusTimeoutId : timer
}.

Definition set_status (v : option item) (s : LES) : LES :=
  {| _version := _version s; _status := v;
     _peerStatus := _peerStatus s; _statusTimeoutId := _statusTimeoutId s |}.

Definition set_peerStatus (v : option item) (s : LES) : LES :=
  {| _version := _version s; _status := _status s;
     _peerStatus := v; _statusTimeoutId := _statusTimeoutId s |}.

Definition set_timer (t : timer) (s : LES) : LES :=
  {| _version := _version s; _status := _status s;
     _peerStatus := _peerStatus s; _statusTimeoutId := t |}.

(** A nullable field read as a JavaScript value. *)
Definition nullable (o : option item) : value :=
  match o with Some i => Item i | None => Null end.

(* ================================================================== *)
(** ** The method monad *)

Inductive outcome (A : Type) : Type :=
| Return (a : A)
| Throw (e : error).
Arguments Return {A} a.
Arguments Throw {A} e.

Record result (A : Type) : Type := {
  res : outcome A;
  final : LES;
  effects : list effect
}.
Arguments res {A} r.
Arguments final {A} r.
Arguments effects {A} r.

Definition M (A : Type) : Type := LES -> result A.

Definition ret {A} (a : A) : M A :=
  fun s => {| res := Return a; final := s; effects := [] |}.

Definition throw {A} (e : error) : M A :=
  fun s => {| res := Throw e; final := s; effects := [] |}.

Definition bind {A B} (m : M A) (k : A -> M B) : M B :=
  fun s =>
    match m s with
    | {| res := Return a; final := s1; effects := out1 |} =>
        match k a s1 with
        | {| res := r; final := s2; effects := out2 |} =>
            {| res := r; final := s2; effects := out1 ++ out2 |}
        end
    | {| res := Throw e; final := s1; effects := out1 |} =>
        {| res := Throw e; final := s1; effects := out1 |}
    end.

Definition get : M LES :=
  fun s => {| res := Return s; final := s; effects := [] |}.

Definition modify (f : LES -> LES) : M unit :=
  fun s => {| res := Return tt; final := f s; effects := [] |}.

Definition call (e : effect) : M unit :=
  fun s => {| res := Return tt; final := s; effects := [e] |}.

Definition lift {A} (e : error) (o : option A) : M A :=
  match o with Some a => ret a | None => throw e end.

Notation "x <- m ;; k" := (bind m (fun x => k))
  (at level 61, m at next level, right associativity).
Notation "m ;;; k" := (bind m (fun _ => k))
  (at level 61, right associativity).

(* ================================================================== *)
(** ** Message codes and protocol descriptors *)

Module MESSAGE_CODES.
(* LES/1 *)
Definition STATUS : Z := 0x00.
Definition ANNOUNCE : Z := 0x01.
Definition GET_BLOCK_HEADERS : Z := 0x02.
Definition BLOCK_HEADERS : Z := 0x03.
Definition GET_BLOCK_BODIES : Z := 0x04.
Definition BLOCK_BODIES : Z := 0x05.
Definition GET_RECEIPTS : Z := 0x06.
Definition RECEIPTS : Z := 0x07.
Definition GET_PROOFS : Z := 0x08.
Definition PROOFS : Z := 0x09.
Definition GET_CONTRACT_CODES : Z := 0x0a.
Definition CONTRACT_CODES : Z := 0x0b.
Definition GET_HEADER_PROOFS : Z := 0x0d.
Definition HEADER_PROOFS : Z := 0x0e.
Definition SEND_TX : Z := 0x0c.
(* LES/2 *)
Definition GET_PROOFS_V2 : Z := 0x0f.
Definition PROOFS_V2 : Z := 0x10.
Definition GET_HELPER_TRIE_PROOFS : Z := 0x11.
Definition HELPER_TRIE_PROOFS : Z := 0x12.
Definition SEND_TX_V2 : Z := 0x13.
Definition GET_TX_STATUS : Z := 0x14.
Definition TX_STATUS : Z := 0x15.
End MESSAGE_CODES.
Import MESSAGE_CODES.

(** The case labels of the first group of the two [switch] statements. *)
Definition les1_cases : list Z :=
  [ANNOUNCE; GET_BLOCK_HEADERS; BLOCK_HEADERS; GET_BLOCK_BODIES; BLOCK_BODIES;
   GET_RECEIPTS; RECEIPTS; GET_PROOFS; PROOFS; GET_CONTRACT_CODES;
   CONTRACT_CODES; GET_HEADER_PROOFS; HEADER_PROOFS; SEND_TX].

(** The case labels of the second group. *)
Definition les2_cases : list Z :=
  [GET_PROOFS_V2; PROOFS_V2; GET_HELPER_TRIE_PROOFS; HELPER_TRIE_PROOFS;
   SEND_TX_V2; GET_TX_STATUS; TX_STATUS].

(** [switch (code)] reaching one of the labels [cases] (strict equality). *)
Definition case_in (code : Z) (cases : list Z) : bool :=
  existsb (Z.eqb code) cases.

(** A protocol descriptor ([constructor: LES] is the class itself). *)
Record descriptor : Type := {
  name : string;
  version : Z;
  length : Z
}.

Definition les : descriptor := {| name := "les"; version := 1; length := 15 |}.
Definition les2 : descriptor := {| name := "les"; version := 2; length := 21 |}.

(* ================================================================== *)
(** ** Collaborators *)

(** Library functions the class calls and whose code is outside the
    repository's sources: the RLP codec, [int2buffer] of [../util], and the
    coercion of an array element to a byte inside [Buffer.from(array)]. *)
Class Collaborators : Type := {
  rlp_decode : bytes -> option item;    (* None: rlp.decode throws *)
  rlp_encode : item -> bytes;
  int2buffer : Z -> bytes;
  to_uint8 : item -> byte
}.

(** Modelled from the spec: [assertEq] of [../util] is not among the
    sources.  The spec has the negotiation check compare the fields of the two
    records and a mismatch fail with an error identifying the field; fields
    are opaque byte strings.  Two Buffers are equal when their contents are;
    any other pair is compared with [===], under which an Array is equal only
    to itself (the two sides of every call of the class are distinct
    objects). *)
Definition equal_values (expected actual : value) : bool :=
  match expected, actual with
  | Item (Buf a), Item (Buf b) => bytes_eqb a b
  | Null, Null => true
  | Undefined, Undefined => true
  | Num a, Num b => a =? b
  | _, _ => false
  end.

(** Modelled from the spec: [assertEq(expected, actual, msg)], see
    [equal_values]; the error carries [msg]. *)
Definition assertEq (expected actual : value) (msg : string) : M unit :=
  if equal_values expected actual then ret tt else throw (AssertionError msg).

(** Modelled from the spec: [buffer2int] of [../util] is not among the
    sources.  The spec has numeric status fields as big-endian byte strings: on
    a Buffer the result is that number; reading [undefined] or [null] as a
    Buffer throws a TypeError; any other value yields no number. *)
Definition buffer2int (v : value) : M (option Z) :=
  match v with
  | Item (Buf b) =>
      ret (Some (fold_left (fun n x => n * 256 + Z.of_N (Byte.to_N x)) b 0))
  | Null | Undefined => throw TypeError
  | _ => ret None
  end.

(** [v.toString('hex')]: a TypeError on [undefined] and [null], a RangeError
    on a number (the radix is not a number between 2 and 36), a string on a
    Buffer or an Array (only logged, not modelled). *)
Definition toString_hex (v : value) : M unit :=
  match v with
  | Item _ => ret tt
  | Num _ => throw RangeError
  | Null | Undefined => throw TypeError
  end.

Section Session.
Context `{Collaborators}.

(** [Buffer.from(v)]: a copy of a Buffer, the elements of an Array coerced
    to bytes, a TypeError on [undefined], [null] and numbers. *)
Definition Buffer_from (v : value) : M bytes :=
  match v with
  | Item (Buf b) => ret b
  | Item (Arr l) => ret (map to_uint8 l)
  | _ => throw TypeError
  end.

(** [_getStatusString(status)]: the template literals are evaluated for the
    debug log; only what they can throw is kept. *)
Definition _getStatusString (status : item) : M unit :=
  buffer2int (index status 0) ;;;
  buffer2int (index status 1) ;;;
  buffer2int (index status 2) ;;;
  toString_hex (index status 3) ;;;
  buffer2int (index status 4) ;;;
  toString_hex (index status 5).

Definition clear_statusTimeout : M unit :=
  call ClearTimeout ;;;
  modify (fun s => set_timer (clearTimeout (_statusTimeoutId s)) s).

Definition _handleStatus : M unit :=
  s <- get ;;
  match _status s, _peerStatus s with
  | Some status, Some peerStatus =>
      clear_statusTimeout ;;;
      assertEq (index status 0) (index peerStatus 0) "Protocol version mismatch" ;;;
      assertEq (index status 1) (index peerStatus 1) "NetworkId mismatch" ;;;
      assertEq (index status 5) (index peerStatus 5) "Genesis block mismatch" ;;;
      td <- Buffer_from (index peerStatus 2) ;;
      hash <- Buffer_from (index peerStatus 3) ;;
      num <- Buffer_from (index peerStatus 4) ;;
      genesis <- Buffer_from (index peerStatus 5) ;;
      call (EmitStatus {| networkId := index peerStatus 1;
                          headTd := td;
                          headHash := hash;
                          headNum := num;
                          genesisHash := genesis |})
  | _, _ => ret tt
  end.

Definition _handleMessage (code : Z) (data : bytes) : M unit :=
  payload <- lift DecodeError (rlp_decode data) ;;
  let emit_message := call (EmitMessage code payload) in
  if code =? STATUS then
    s <- get ;;
    assertEq (nullable (_peerStatus s)) Null "Uncontrolled status message" ;;;
    modify (set_peerStatus (Some payload)) ;;;
    _getStatusString payload ;;;
    _handleStatus
  else if case_in code les1_cases then
    s <- get ;;
    if _version s >=? version les then emit_message else ret tt
  else if case_in code les2_cases then
    s <- get ;;
    if _version s >=? version les2 then emit_message else ret tt
  else ret tt.

Definition getVersion : M Z :=
  s <- get ;; ret (_version s).

Definition sendStatus (status : status_arg) : M unit :=
  s <- get ;;
  match _status s with
  | Some _ => ret tt
  | None =>
      let st := Arr [Buf (int2buffer (_version s));
                     Buf (int2buffer (arg_networkId status));
                     Buf (arg_headTd status);
                     Buf (arg_headHash status);
                     Buf (arg_headNum status);
                     Buf (arg_genesisHash status)] in
      modify (set_status (Some st)) ;;;
      _getStatusString st ;;;
      call (Send STATUS (rlp_encode st)) ;;;
      _handleStatus
  end.

Definition sendMessage (code : Z) (payload : item) : M unit :=
  let send := call (Send code (rlp_encode payload)) in
  if code =? STATUS then throw ErrUseSendStatus
  else if case_in code les1_cases then
    s <- get ;;
    if _version s >=? version les then send
    else throw (ErrNotAllowed code (_version s))
  else if case_in code les2_cases then
    s <- get ;;
    if _version s >=? version les2 then send
    else throw (ErrNotAllowed code (_version s))
  else throw (ErrUnknownCode code).

(** The callback given to [setTimeout] by the constructor; it runs only if
    the timer is still pending. *)
Definition statusTimeout : M unit :=
  s <- get ;;
  match _statusTimeoutId s with
  | Armed => modify (set_timer Fired) ;;; call (Disconnect TIMEOUT)
  | _ => ret tt
  end.

(** [new LES(version, peer, send)]. *)
Definition new_LES (version : Z) : LES :=
  {| _version := version; _status := None; _peerStatus := None;
     _statusTimeoutId := Armed |}.

(** *** Executions *)

(** What can happen to a session: the transport delivers a message, the
    application calls [sendStatus] or [sendMessage], the timer expires. *)
Inductive op : Type :=
| Receive (code : Z) (data : bytes)
| SendStatus (status : status_arg)
| SendMessage (code : Z) (payload : item)
| TimerExpires.

Definition step (o : op) : M unit :=
  match o with
  | Receive code data => _handleMessage code data
  | SendStatus status => sendStatus status
  | SendMessage code payload => sendMessage code payload
  | TimerExpires => statusTimeout
  end.

(** An execution: every event runs on the state left by the previous one,
    whether that one returned or threw; the effects are collected. *)
Fixpoint run (ops : list op) (s : LES) : LES * list effect :=
  match ops with
  | [] => (s, [])
  | o :: rest =>
      let r := step o s in
      let '(s', out) := run rest (final r) in
      (s', effects r ++ out)
  end.

End Session.

(** The ['status'] events of a trace. *)
Fixpoint status_events (out : list effect) : list status_summary :=
  match out with
  | [] => []
  | EmitStatus e :: rest => e :: status_events rest
  | _ :: rest => status_events rest
  end.

(** The number of [clearTimeout] calls of a trace. *)
Fixpoint clear_calls (out : list effect) : nat :=
  match out with
  | [] => 0%nat
  | ClearTimeout :: rest => S (clear_calls rest)
  | _ :: rest => clear_calls rest
  end.

(** The messages handed to the transport in a trace. *)
Fixpoint sent (out : list effect) : list (Z * bytes) :=
  match out with
  | [] => []
  | Send c d :: rest => (c, d) :: sent rest
  | _ :: rest => sent rest
  end.

(** *** The code table of the specification *)

(** The table of section 6: each code with its minimum version. *)
Definition code_table : list (Z * Z) :=
  [(0x00, 1); (0x01, 1); (0x02, 1); (0x03, 1); (0x04, 1); (0x05, 1);
   (0x06, 1); (0x07, 1); (0x08, 1); (0x09, 1); (0x0a, 1); (0x0b, 1);
   (0x0c, 1); (0x0d, 1); (0x0e, 1);
   (0x0f, 2); (0x10, 2); (0x11, 2); (0x12, 2); (0x13, 2); (0x14, 2);
   (0x15, 2)].

Fixpoint min_version (table : list (Z * Z)) (code : Z) : option Z :=
  match table with
  | [] => None
  | (c, m) :: rest => if code =? c then Some m else min_version rest code
  end.

(** [isCodeAllowed(version, code)] as section 4.1 words it: the code is in
    the table and its minimum version is at most [version]. *)
Definition isCodeAllowed (version code : Z) : bool :=
  match min_version code_table code with
  | Some m => m <=? version
  | None => false
  end.

(** Where a code lands in the [switch]: the STATUS case, the first group, the
    second group, or [default]; and what the table says of it. *)
Inductive landing (code : Z) : Prop :=
| lands_status :
    code = STATUS -> min_version code_table code = Some 1 -> landing code
| lands_les1 :
    (code =? STATUS) = false -> case_in code les1_cases = true ->
    min_version code_table code = Some 1 -> 0 < code < 15 -> landing code
| lands_les2 :
    (code =? STATUS) = false -> case_in code les1_cases = false ->
    case_in code les2_cases = true ->
    min_version code_table code = Some 2 -> 15 <= code <= 21 -> landing code
| lands_default :
    (code =? STATUS) = false -> case_in code les1_cases = false ->
    case_in code les2_cases = false ->
    min_version code_table code = None -> landing code.

(** What section 4.3 asks of [send(code, value)] at version [v]: STATUS is
    refused and referred to [sendStatus]; a code of the table is accepted from
    its minimum version on and refused below it; a code outside the table is
    unknown. *)
Definition send_outcome (v code : Z) : outcome unit :=
  if code =? STATUS then Throw ErrUseSendStatus
  else match min_version code_table code with
       | Some m => if m <=? v then Return tt else Throw (ErrNotAllowed code v)
       | None => Throw (ErrUnknownCode code)
       end.

(** *** Vocabulary of the handshake statements *)

(** The three comparisons of [_handleStatus]: index and label. *)
Definition status_checks : list (nat * string) :=
  [(0%nat, "Protocol version mismatch");
   (1%nat, "NetworkId mismatch");
   (5%nat, "Genesis block mismatch")].

(** The shape of the record [sendStatus] stores: six Buffers. *)
Definition local_record (l : item) : Prop :=
  exists v n td hash num gen,
    l = Arr [Buf v; Buf n; Buf td; Buf hash; Buf num; Buf gen].

(** Both records are stored. *)
Definition exchanged (s : LES) : Prop :=
  _status s <> None /\ _peerStatus s <> None.

(** The field [v] of the peer record is what the event carries as [b]: the
    bytes of a byte string, the coerced elements of a nested list. *)
Definition carried `{Collaborators} (v : value) (b : bytes) : Prop :=
  match v with
  | Item (Buf x) => b = x
  | Item (Arr l) => b = map to_uint8 l
  | _ => False
  end.

(** The event [e] carries the fields of the peer record [p]: its network
    id as stored, and its head weight, head hash, head number and genesis
    hash. *)
Definition summary_of `{Collaborators} (p : item) (e : status_summary) : Prop :=
  networkId e = index p 1
  /\ carried (index p 2) (headTd e)
  /\ carried (index p 3) (headHash e)
  /\ carried (index p 4) (headNum e)
  /\ carried (index p 5) (genesisHash e).

(** The first comparison of [_handleStatus] that fails on the records [l]
    and [p], if any. *)
Definition first_mismatch (l p : item) : option (nat * string) :=
  find (fun c => negb (equal_values (index l (fst c)) (index p (fst c))))
       status_checks.

(** The record [sendStatus] builds. *)
Definition built_record `{Collaborators} (s : LES) (status : status_arg) : item :=
  Arr [Buf (int2buffer (_version s));
       Buf (int2buffer (arg_networkId status));
       Buf (arg_headTd status);
       Buf (arg_headHash status);
       Buf (arg_headNum status);
       Buf (arg_genesisHash status)].

(** The local record, if stored, has the shape [sendStatus] gives it. *)
Definition recorded (s : LES) : Prop :=
  forall l, _status s = Some l -> local_record l.

(** What one event can do to the handshake, from the session [s] to the
    result [r]: nothing; store the first of the two records; or store the
    second one and run the negotiation check. *)
Inductive step_shape `{Collaborators} (s : LES) (r : result unit) : Prop :=
| shape_quiet :
    _status (final r) = _status s ->
    _peerStatus (final r) = _peerStatus s ->
    status_events (effects r) = [] ->
    clear_calls (effects r) = 0%nat ->
    step_shape s r
| shape_stored (l : option item) (p : option item) :
    ~ exchanged s ->
    _status (final r) = l ->
    _peerStatus (final r) = p ->
    (l = _status s \/ _status s = None /\ exists x, l = Some x /\ local_record x) ->
    (p = _peerStatus s \/ _peerStatus s = None) ->
    (forall x y, l = Some x -> p = Some y -> first_mismatch x y <> None) ->
    status_events (effects r) = [] ->
    clear_calls (effects r) = 0%nat ->
    step_shape s r
| shape_checked (l p : item) :
    ~ exchanged s ->
    _status (final r) = Some l ->
    _peerStatus (final r) = Some p ->
    local_record l ->
    _statusTimeoutId (final r) = clearTimeout (_statusTimeoutId s) ->
    clear_calls (effects r) = 1%nat ->
    match first_mismatch l p with
    | Some c => res r = Throw (AssertionError (snd c))
                /\ status_events (effects r) = []
    | None => res r = Return tt
              /\ exists e, status_events (effects r) = [e] /\ summary_of p e
    end ->
    step_shape s r.

(** What an execution from the constructor maintains: the local record has
    its shape; a ['status'] event has been emitted, once and with the peer's
    fields, exactly if both records are stored and pass the three comparisons;
    [clearTimeout] has been called at most once, and not before both records
    were stored. *)
Definition handshake_inv `{Collaborators} (s : LES) (out : list effect) : Prop :=
  recorded s
  /\ match _status s, _peerStatus s with
     | Some l, Some p =>
         match first_mismatch l p with
         | None => exists e, status_events out = [e] /\ summary_of p e
         | Some _ => status_events out = []
         end
     | _, _ => status_events out = []
     end
  /\ (clear_calls out <= 1)%nat
  /\ (~ exchanged s -> clear_calls out = 0%nat).

(** *** Names of the codes *)

(** The keys of [MESSAGE_CODES] with their values, in the order of the
    object literal ([Object.keys] keeps it for such keys). *)
Definition MESSAGE_CODES_entries : list (string * Z) :=
  [("STATUS", STATUS); ("ANNOUNCE", ANNOUNCE);
   ("GET_BLOCK_HEADERS", GET_BLOCK_HEADERS); ("BLOCK_HEADERS", BLOCK_HEADERS);
   ("GET_BLOCK_BODIES", GET_BLOCK_BODIES); ("BLOCK_BODIES", BLOCK_BODIES);
   ("GET_RECEIPTS", GET_RECEIPTS); ("RECEIPTS", RECEIPTS);
   ("GET_PROOFS", GET_PROOFS); ("PROOFS", PROOFS);
   ("GET_CONTRACT_CODES", GET_CONTRACT_CODES);
   ("CONTRACT_CODES", CONTRACT_CODES);
   ("GET_HEADER_PROOFS", GET_HEADER_PROOFS); ("HEADER_PROOFS", HEADER_PROOFS);
   ("SEND_TX", SEND_TX);
   ("GET_PROOFS_V2", GET_PROOFS_V2); ("PROOFS_V2", PROOFS_V2);
   ("GET_HELPER_TRIE_PROOFS", GET_HELPER_TRIE_PROOFS);
   ("HELPER_TRIE_PROOFS", HELPER_TRIE_PROOFS);
   ("SEND_TX_V2", SEND_TX_V2); ("GET_TX_STATUS", GET_TX_STATUS);
   ("TX_STATUS", TX_STATUS)].

(** [getMsgPrefix(msgCode)]: the first key whose value is [msgCode];
    [None] stands for [undefined]. *)
Definition getMsgPrefix (msgCode : Z) : option string :=
  option_map fst
    (find (fun entry => snd entry =? msgCode) MESSAGE_CODES_entries).

(** *** Vocabulary of the statements on executions *)

(** The ['message'] events of a trace. *)
Fixpoint message_events (out : list effect) : list (Z * item) :=
  match out with
  | [] => []
  | EmitMessage c p :: rest => (c, p) :: message_events rest
  | _ :: rest => message_events rest
  end.

(** The number of disconnect requests of a trace. *)
Fixpoint disconnects (out : list effect) : nat :=
  match out with
  | [] => 0%nat
  | Disconnect _ :: rest => S (disconnects rest)
  | _ :: rest => disconnects rest
  end.

(** The STATUS messages among the messages handed to the transport. *)
Definition status_sent (out : list effect) : list (Z * bytes) :=
  filter (fun m => fst m =? STATUS) (sent out).

(** A received record on which the log string can be built: a list of at
    least six items. *)
Definition six_items (p : item) : Prop :=
  exists a b c d e f rest, p = Arr (a :: b :: c :: d :: e :: f :: rest).

(** Where an effect of the event [o] on the session [s] comes from: a
    message goes to the transport from [sendStatus], as the STATUS message of
    the record just built, or from [sendMessage], under a code other than
    STATUS allowed at the session's version; a ['message'] event comes from a
    received message of such a code, with its decoded payload; a disconnect
    request comes from the timer, which was pending. *)
Definition effect_from `{Collaborators} (s : LES) (o : op) (e : effect) : Prop :=
  match e with
  | Send c d =>
      match o with
      | SendStatus status =>
          _status s = None /\ c = STATUS
          /\ d = rlp_encode (built_record s status)
      | SendMessage c' payload =>
          c = c' /\ c <> STATUS /\ isCodeAllowed (_version s) c = true
          /\ d = rlp_encode payload
      | _ => False
      end
  | EmitMessage c p =>
      match o with
      | Receive c' data =>
          c = c' /\ c <> STATUS /\ isCodeAllowed (_version s) c = true
          /\ rlp_decode data = Some p
      | _ => False
      end
  | Disconnect _ => o = TimerExpires /\ _statusTimeoutId s = Armed
  | EmitStatus _ | ClearTimeout =>
      (exists data, o = Receive STATUS data)
      \/ (exists status, o = SendStatus status)
  end.

(** A trace without its disconnect requests. *)
Definition without_disconnects (out : list effect) : list effect :=
  filter (fun e => match e with Disconnect _ => false | _ => true end) out.

(** An effect a session of version [v] can produce: it has the origin
    [effect_from] names, on some session of that version. *)
Definition effect_at `{Collaborators} (v : Z) (e : effect) : Prop :=
  exists s o, _version s = v /\ effect_from s o e.

(* ================================================================== *)
(** ** A sample set of collaborators

    Used to run the session on concrete inputs: RLP as the Ethereum wire
    format defines it (no check that an encoding is the shortest one), the
    big-endian [int2buffer], and an element coercion that maps every array
    element to the byte 0. *)

Module Sample.

Definition byte_of_Z (z : Z) : byte :=
  match Byte.of_N (Z.to_N (z mod 256)) with Some b => b | None => "000"%byte end.

Definition Z_of_byte (b : byte) : Z := Z.of_N (Byte.to_N b).

(** Big-endian digits of a positive number, most significant first. *)
Fixpoint be_digits (fuel : nat) (z : Z) (acc : bytes) : bytes :=
  match fuel with
  | O => acc
  | S fuel' => if z <=? 0 then acc
               else be_digits fuel' (z / 256) (byte_of_Z z :: acc)
  end.

Definition be_bytes (z : Z) : bytes :=
  be_digits (S (Z.to_nat (Z.log2 z))) z [].

Definition be_number (b : bytes) : Z :=
  fold_left (fun n x => n * 256 + Z_of_byte x) b 0.

Definition header (short long : Z) (len : Z) : bytes :=
  if len <=? 55 then [byte_of_Z (short + len)]
  else let l := be_bytes len in
       byte_of_Z (long + Z.of_nat (List.length l)) :: l.

Fixpoint encode (i : item) : bytes :=
  match i with
  | Buf [b] =>
      if Z_of_byte b <? 0x80 then [b] else header 0x80 0xb7 1 ++ [b]
  | Buf b => header 0x80 0xb7 (Z.of_nat (List.length b)) ++ b
  | Arr l =>
      let payload := List.concat (map encode l) in
      header 0xc0 0xf7 (Z.of_nat (List.length payload)) ++ payload
  end.

(** Splits [n] bytes off the front of [data], if there are that many. *)
Definition take (n : Z) (data : bytes) : option (bytes * bytes) :=
  let k := Z.to_nat n in
  if (k <=? List.length data)%nat then Some (firstn k data, skipn k data)
  else None.

(** The length announced by the header byte [n], whose short form starts at
    [short] and long form at [long], and the bytes after the header. *)
Definition announced (short long n : Z) (t : bytes) : option (Z * bytes) :=
  if n <=? long then Some (n - short, t)
  else match take (n - long) t with
       | Some (l, t') => Some (be_number l, t')
       | None => None
       end.

(** Decodes a sequence of items laid end to end. *)
Fixpoint decode_items (fuel : nat) (data : bytes) : option (list item) :=
  match fuel with
  | O => None
  | S fuel' =>
      match data with
      | [] => Some []
      | h :: t =>
          let n := Z_of_byte h in
          if n <? 0x80 then
            option_map (cons (Buf [h])) (decode_items fuel' t)
          else if n <? 0xc0 then
            match announced 0x80 0xb7 n t with
            | Some (len, t') =>
                match take len t' with
                | Some (body, rest) =>
                    option_map (cons (Buf body)) (decode_items fuel' rest)
                | None => None
                end
            | None => None
            end
          else
            match announced 0xc0 0xf7 n t with
            | Some (len, t') =>
                match take len t' with
                | Some (body, rest) =>
                    match decode_items fuel' body, decode_items fuel' rest with
                    | Some l, Some others => Some (Arr l :: others)
                    | _, _ => None
                    end
                | None => None
                end
            | None => None
            end
      end
  end.

(** [rlp.decode]: exactly one item, nothing after it. *)
Definition decode (data : bytes) : option item :=
  match decode_items (S (List.length data)) data with
  | Some [i] => Some i
  | _ => None
  end.

(** For [int2buffer]: the hexadecimal digits of [v], padded to whole bytes;
    zero is the single byte 0. *)
Definition hex_bytes (v : Z) : bytes :=
  if v =? 0 then ["000"%byte] else be_bytes v.

Definition collaborators : Collaborators :=
  {| rlp_decode := decode;
     rlp_encode := encode;
     int2buffer := hex_bytes;
     to_uint8 := fun _ => "000"%byte |}.

(** A mainnet-like status: network 1, the genesis block as head. *)
Definition genesis : bytes := map byte_of_Z [0xd4; 0xe5; 0x67; 0x40].

Definition local_status : status_arg :=
  {| arg_networkId := 1;
     arg_headTd := be_bytes 17179869184;
     arg_headHash := genesis;
     arg_headNum := [];
     arg_genesisHash := genesis |}.

(** The status record a version-[v] peer on network [n] sends. *)
Definition status_record (v n : Z) : item :=
  Arr [Buf (hex_bytes v); Buf (hex_bytes n); Buf (be_bytes 17179869184);
       Buf genesis; Buf []; Buf genesis].

(** The STATUS message of a version-1 peer on network [n]. *)
Definition status_message (n : Z) : bytes := encode (status_record 1 n).

(** A version-1 session holding its own record and that of a peer on
    network 2, the timer still pending. *)
Definition mismatched : LES :=
  {| _version := 1;
     _status := Some (status_record 1 1);
     _peerStatus := Some (status_record 1 2);
     _statusTimeoutId := Armed |}.

(** A version-1 session that has sent its status. *)
Definition local_sent : LES :=
  {| _version := 1;
     _status := Some (status_record 1 1);
     _peerStatus := None;
     _statusTimeoutId := Armed |}.

(** A version-1 session that has received the status of its peer. *)
Definition peer_received : LES :=
  {| _version := 1;
     _status := None;
     _peerStatus := Some (status_record 1 1);
     _statusTimeoutId := Armed |}.


(** What the ['status'] event carries after [local_status] was received. *)
Definition local_summary : status_summary :=
  {| networkId := Item (Buf (hex_bytes 1));
     headTd := be_bytes 17179869184;
     headHash := genesis;
     headNum := [];
     genesisHash := genesis |}.

(** A STATUS message with a single field. *)
Definition short_status : bytes := encode (Arr [Buf []]).

(** A truncated message: the header announces more bytes than follow. *)
Definition malformed : bytes := map byte_of_Z [0xc3; 0x01].

End Sample.

Example sample_roundtrip :
  Sample.decode (Sample.encode (Sample.status_record 2 1))
  = Some (Sample.status_record 2 1).
Proof. vm_compute. reflexivity. Qed.

Example sample_malformed : Sample.decode Sample.malformed = None.
Proof. vm_compute. reflexivity. Qed.

(* ================================================================== *)
(** ** Basic facts *)

Lemma bytes_eqb_eq (a b : bytes) : bytes_eqb a b = true <-> a = b.
Proof.
  revert b; induction a as [|x a IH]; intros [|y b]; simpl;
    try (split; [discriminate | congruence]); try tauto.
  rewrite andb_true_iff, IH. split.
  - intros [Hxy ->]. apply Byte.byte_dec_bl in Hxy. now subst.
  - intros [= -> ->]. split; [now apply Byte.byte_dec_lb | reflexivity].
Qed.

(** Against a Buffer, [assertEq] passes exactly on the same byte string. *)
Lemma equal_values_buf (a : bytes) (v : value) :
  equal_values (Item (Buf a)) v = true <-> Item (Buf a) = v.
Proof.
  destruct v as [| | n | [b | l]]; simpl;
    try (split; [discriminate | intros [=]]).
  rewrite bytes_eqb_eq. split; [now intros -> | now intros [= ->]].
Qed.

Lemma status_events_app (a b : list effect) :
  status_events (a ++ b) = status_events a ++ status_events b.
Proof.
  induction a as [|e a IH]; [reflexivity|].
  destruct e; simpl; try assumption. now rewrite IH.
Qed.

Lemma clear_calls_app (a b : list effect) :
  clear_calls (a ++ b) = (clear_calls a + clear_calls b)%nat.
Proof.
  induction a as [|e a IH]; [reflexivity|].
  destruct e; simpl; try assumption. now rewrite IH.
Qed.

(** *** The two [switch] statements against the table *)

Ltac known_code :=
  first
    [ apply lands_status; [reflexivity | reflexivity]
    | apply lands_les1; [reflexivity | reflexivity | reflexivity | lia]
    | apply lands_les2;
      [reflexivity | reflexivity | reflexivity | reflexivity | lia] ].

Lemma switch_landing (code : Z) : landing code.
Proof.
  destruct (Z.eqb_spec code 0) as [->|H0]; [known_code|].
  destruct (Z.eqb_spec code 1) as [->|H1]; [known_code|].
  destruct (Z.eqb_spec code 2) as [->|H2]; [known_code|].
  destruct (Z.eqb_spec code 3) as [->|H3]; [known_code|].
  destruct (Z.eqb_spec code 4) as [->|H4]; [known_code|].
  destruct (Z.eqb_spec code 5) as [->|H5]; [known_code|].
  destruct (Z.eqb_spec code 6) as [->|H6]; [known_code|].
  destruct (Z.eqb_spec code 7) as [->|H7]; [known_code|].
  destruct (Z.eqb_spec code 8) as [->|H8]; [known_code|].
  destruct (Z.eqb_spec code 9) as [->|H9]; [known_code|].
  destruct (Z.eqb_spec code 10) as [->|H10]; [known_code|].
  destruct (Z.eqb_spec code 11) as [->|H11]; [known_code|].
  destruct (Z.eqb_spec code 12) as [->|H12]; [known_code|].
  destruct (Z.eqb_spec code 13) as [->|H13]; [known_code|].
  destruct (Z.eqb_spec code 14) as [->|H14]; [known_code|].
  destruct (Z.eqb_spec code 15) as [->|H15]; [known_code|].
  destruct (Z.eqb_spec code 16) as [->|H16]; [known_code|].
  destruct (Z.eqb_spec code 17) as [->|H17]; [known_code|].
  destruct (Z.eqb_spec code 18) as [->|H18]; [known_code|].
  destruct (Z.eqb_spec code 19) as [->|H19]; [known_code|].
  destruct (Z.eqb_spec code 20) as [->|H20]; [known_code|].
  destruct (Z.eqb_spec code 21) as [->|H21]; [known_code|].
  assert (Hne : forall k, code <> k -> (code =? k) = false)
    by (intros k Hk; now apply Z.eqb_neq).
  apply lands_default;
    cbv [case_in les1_cases les2_cases existsb min_version code_table
         STATUS ANNOUNCE GET_BLOCK_HEADERS BLOCK_HEADERS GET_BLOCK_BODIES
         BLOCK_BODIES GET_RECEIPTS RECEIPTS GET_PROOFS PROOFS
         GET_CONTRACT_CODES CONTRACT_CODES GET_HEADER_PROOFS HEADER_PROOFS
         SEND_TX GET_PROOFS_V2 PROOFS_V2 GET_HELPER_TRIE_PROOFS
         HELPER_TRIE_PROOFS SEND_TX_V2 GET_TX_STATUS TX_STATUS];
    rewrite ?Hne by assumption; reflexivity.
Qed.

(* ================================================================== *)
(** ** Dispatch: [sendMessage] and [_handleMessage] *)

Section Dispatch.
Context `{Collaborators}.

Ltac by_landing code :=
  let E0 := fresh "E0" in
  let E1 := fresh "E1" in
  let E2 := fresh "E2" in
  let Em := fresh "Em" in
  let Hr := fresh "Hr" in
  destruct (switch_landing code) as [E0 Em | E0 E1 Em Hr | E0 E1 E2 Em Hr | E0 E1 E2 Em];
  [ subst code; change (STATUS =? STATUS) with true in * | | | ].

(** [sendMessage] written out: the result for each landing of the code. *)
Lemma sendMessage_unfold (code : Z) (payload : item) (s : LES) :
  sendMessage code payload s =
  {| res := send_outcome (_version s) code;
     final := s;
     effects := match send_outcome (_version s) code with
                | Return _ => [Send code (rlp_encode payload)]
                | Throw _ => []
                end |}.
Proof.
  unfold sendMessage, send_outcome.
  by_landing code; rewrite ?E0, ?E1, ?E2, ?Em; cbn [version les les2];
    try reflexivity;
    unfold bind, get, call, throw; cbn [res final effects];
    rewrite Z.geb_leb;
    match goal with |- context [?a <=? ?b] => destruct (a <=? b) end;
    reflexivity.
Qed.

(** The table says "allowed and not STATUS" exactly when [send_outcome]
    returns. *)
Lemma send_outcome_allowed (v code : Z) :
  isCodeAllowed v code && negb (code =? STATUS) = true
  <-> send_outcome v code = Return tt.
Proof.
  unfold isCodeAllowed, send_outcome.
  destruct (code =? STATUS); cbn [negb].
  - rewrite andb_false_r. split; discriminate.
  - rewrite andb_true_r.
    destruct (min_version code_table code) as [m|];
      [destruct (m <=? v)|]; split; congruence.
Qed.

(** C5: [sendMessage(code, payload)] at version [v] does what the table
    prescribes.  Its outcome is [send_outcome v code]: the error pointing to
    [sendStatus] for STATUS, the "not allowed with version" error for a code
    whose minimum version is above [v], the "Unknown code" error for a code of
    no version, and a normal return otherwise.  The session is left as it was.
    The transport receives [(code, rlp.encode(payload))], once, exactly when
    the code is allowed at [v] and is not STATUS; a call that throws
    transmits nothing. *)
Theorem sendMessage_by_version (code : Z) (payload : item) (s : LES) :
  let r := sendMessage code payload s in
  res r = send_outcome (_version s) code
  /\ final r = s
  /\ effects r =
       (if isCodeAllowed (_version s) code && negb (code =? STATUS)
        then [Send code (rlp_encode payload)] else [])
  /\ match res r with
     | Return _ => effects r = [Send code (rlp_encode payload)]
     | Throw _ => effects r = []
     end.
Proof.
  cbv zeta. rewrite sendMessage_unfold. cbn [res final effects].
  repeat split.
  - pose proof (send_outcome_allowed (_version s) code) as Ha.
    destruct (send_outcome (_version s) code) as [[]|e].
    + now rewrite (proj2 Ha eq_refl).
    + destruct (isCodeAllowed (_version s) code && negb (code =? STATUS));
        [|reflexivity].
      now discriminate (proj1 Ha eq_refl).
  - now destruct (send_outcome (_version s) code).
Qed.

(** A code of the table is sendable from its minimum version on. *)
Lemma send_outcome_returns (v code : Z) :
  send_outcome v code = Return tt ->
  exists m, min_version code_table code = Some m /\ m <= v
            /\ forall v', send_outcome v' code = Return tt <-> m <= v'.
Proof.
  unfold send_outcome. destruct (code =? STATUS); [discriminate|].
  destruct (min_version code_table code) as [m|]; [|discriminate].
  destruct (Z.leb_spec m v) as [Hle|]; [|discriminate]. intros _.
  exists m. repeat split; trivial.
  - destruct (Z.leb_spec m v'); [trivial | discriminate].
  - intros Hm. destruct (Z.leb_spec m v'); [reflexivity | lia].
Qed.

(** C7: the codes accepted for sending only grow with the version.  If
    [sendMessage] accepts a code on a session of version N, it accepts it on
    every session of version N+1; and the code has one minimum version [m],
    the one of the table, such that a session accepts it exactly from version
    [m] on. *)
Theorem sendMessage_monotone (code : Z) (payload : item) (s : LES) :
  res (sendMessage code payload s) = Return tt ->
  (forall payload' s',
      _version s' = _version s + 1 ->
      res (sendMessage code payload' s') = Return tt)
  /\ exists m,
      min_version code_table code = Some m
      /\ forall payload' s',
          res (sendMessage code payload' s') = Return tt <-> m <= _version s'.
Proof.
  rewrite sendMessage_unfold. cbn [res]. intros Hs.
  destruct (send_outcome_returns _ _ Hs) as (m & Hm & Hle & Hall).
  split.
  - intros payload' s' Hv. rewrite sendMessage_unfold. cbn [res].
    apply Hall. lia.
  - exists m. split; [assumption|]. intros payload' s'.
    rewrite sendMessage_unfold. cbn [res]. apply Hall.
Qed.

(** The version-1 descriptor covers its codes: every code a version-1
    session accepts for sending lies below [length les]. *)
Lemma les_length_covers (code : Z) (payload : item) (s : LES) :
  _version s = version les ->
  res (sendMessage code payload s) = Return tt ->
  0 < code < length les.
Proof.
  rewrite sendMessage_unfold. cbn [res version les length]. intros ->.
  unfold send_outcome.
  by_landing code; rewrite ?E0, ?Em; try discriminate;
    match goal with |- context [?a <=? ?b] => destruct (Z.leb_spec a b) end;
    try discriminate; intros _; lia.
Qed.

(** C9: the version-2 descriptor does not cover its codes.  A version-2
    session accepts TX_STATUS (0x15) for sending and surfaces it on receipt,
    yet 0x15 = 21 is not below [length les2] = 21: the codes of version 2 are
    the 22 codes 0x00..0x15.  The version-1 descriptor has the right size
    ([les_length_covers]). *)
Theorem les2_length_misses_TX_STATUS (payload : item) :
  res (sendMessage TX_STATUS payload (new_LES (version les2))) = Return tt
  /\ isCodeAllowed (version les2) TX_STATUS = true
  /\ ~ TX_STATUS < length les2
  /\ List.length (filter (isCodeAllowed (version les2)) (map fst code_table))
     = 22%nat.
Proof.
  split; [reflexivity|]. split; [reflexivity|]. split; [|reflexivity].
  unfold TX_STATUS, les2, length. lia.
Qed.

(** [_handleMessage] on a payload that decodes and a code other than STATUS:
    one ['message'] event if the code is allowed at the session's version,
    nothing otherwise. *)
Lemma handleMessage_unfold (code : Z) (data : bytes) (payload : item) (s : LES) :
  (code =? STATUS) = false ->
  rlp_decode data = Some payload ->
  _handleMessage code data s =
  {| res := Return tt;
     final := s;
     effects := if isCodeAllowed (_version s) code
                then [EmitMessage code payload] else [] |}.
Proof.
  intros Hc Hd. unfold _handleMessage, isCodeAllowed.
  rewrite Hd. unfold lift, bind at 1, ret at 1. cbn [res final effects].
  rewrite Hc.
  by_landing code; [discriminate Hc | | | ];
    rewrite ?E1, ?E2, ?Em; cbn [version les les2];
    try reflexivity;
    unfold bind, get, call, ret; cbn [res final effects];
    rewrite Z.geb_leb;
    match goal with |- context [?a <=? ?b] => destruct (a <=? b) end;
    reflexivity.
Qed.

(** C6: an inbound message other than STATUS whose payload decodes never
    fails and never changes the session.  If its code is allowed at the
    session's version, exactly one ['message'] event fires, carrying the code
    and the decoded payload; if the code belongs to a later version only, or to
    no version, nothing fires (the message is dropped). *)
Theorem handleMessage_dispatch
    (code : Z) (data : bytes) (payload : item) (s : LES) :
  code <> STATUS ->
  rlp_decode data = Some payload ->
  let r := _handleMessage code data s in
  res r = Return tt
  /\ final r = s
  /\ effects r = (if isCodeAllowed (_version s) code
                  then [EmitMessage code payload] else []).
Proof.
  intros Hc Hd. cbv zeta.
  rewrite (handleMessage_unfold code data payload s
             (proj2 (Z.eqb_neq _ _) Hc) Hd).
  repeat split.
Qed.

(** A payload that does not decode stops [_handleMessage] at its first
    line. *)
Lemma receive_malformed (code : Z) (data : bytes) (s : LES) :
  rlp_decode data = None ->
  _handleMessage code data s = throw DecodeError s.
Proof.
  intros Hd. unfold _handleMessage. rewrite Hd. reflexivity.
Qed.

(** C10: the payload is decoded before the code is looked at.  For every
    code, allowed, disallowed or unknown, a payload that [rlp.decode] rejects
    makes [_handleMessage] throw the decoding error, with no event and no
    change to the session. *)
Theorem handleMessage_decodes_first (code : Z) (data : bytes) (s : LES) :
  rlp_decode data = None ->
  _handleMessage code data s
  = {| res := Throw DecodeError; final := s; effects := [] |}.
Proof.
  intros Hd. now rewrite receive_malformed.
Qed.

End Dispatch.

(* ================================================================== *)
(** ** The status handshake *)

Section Handshake.
Context `{Collaborators}.

Ltac run_monad :=
  cbv [bind ret throw get modify call lift clear_statusTimeout assertEq];
  cbn [res final effects app].

(** The log string of a record of six Buffers is built without error. *)
Lemma getStatusString_local (l : item) (s : LES) :
  local_record l -> _getStatusString l s = ret tt s.
Proof.
  intros (v & n & td & hash & num & gen & ->). reflexivity.
Qed.

(** The log string of a received record: built when the record is a list of
    at least six elements; otherwise the call throws, and then the record has
    no item at index 5. *)
Lemma getStatusString_outcome (p : item) (s : LES) :
  (exists a b c d e f rest,
      p = Arr (a :: b :: c :: d :: e :: f :: rest)
      /\ _getStatusString p s = ret tt s)
  \/ ((forall x, index p 5 <> Item x)
      /\ exists err, _getStatusString p s = throw err s).
Proof.
  destruct p as [b | l].
  - right. split.
    + intros x. unfold index. destruct (nth_error b 5); discriminate.
    + destruct b as [|b0 [|b1 [|b2 [|b3 b]]]];
        (eexists; reflexivity).
  - destruct l as [|a [|b [|c [|d [|e [|f rest]]]]]];
      try (right; split; [intros x; discriminate|];
           repeat match goal with i : item |- _ => destruct i end;
           eexists; reflexivity).
    left. exists a, b, c, d, e, f, rest. split; [reflexivity|].
    destruct a, b, c, e; reflexivity.
Qed.

(** Without both records the negotiation check does nothing. *)
Lemma handleStatus_absent (s : LES) :
  _status s = None \/ _peerStatus s = None -> _handleStatus s = ret tt s.
Proof.
  unfold _handleStatus. run_monad.
  intros [-> | ->]; [reflexivity | now destruct (_status s)].
Qed.

(** A failing comparison: the timer is cleared, then the assertion of the
    first mismatching field throws. *)
Lemma handleStatus_mismatch (s : LES) (l p : item) (c : nat * string) :
  _status s = Some l -> _peerStatus s = Some p ->
  first_mismatch l p = Some c ->
  _handleStatus s =
  {| res := Throw (AssertionError (snd c));
     final := set_timer (clearTimeout (_statusTimeoutId s)) s;
     effects := [ClearTimeout] |}.
Proof.
  intros Hl Hp. unfold _handleStatus, first_mismatch, status_checks.
  run_monad. rewrite Hl, Hp. cbn [find fst snd].
  destruct (equal_values (index l 0) (index p 0)); cbn [negb];
    [|intros [= <-]; reflexivity].
  destruct (equal_values (index l 1) (index p 1)); cbn [negb];
    [|intros [= <-]; reflexivity].
  destruct (equal_values (index l 5) (index p 5)); cbn [negb];
    [discriminate | intros [= <-]; reflexivity].
Qed.

(** Against a record of six Buffers the three comparisons pass exactly when
    the three fields are the same byte strings. *)
Lemma first_mismatch_none (l p : item) :
  local_record l ->
  first_mismatch l p = None
  <-> index l 0 = index p 0 /\ index l 1 = index p 1 /\ index l 5 = index p 5.
Proof.
  intros (v & n & td & hash & num & gen & ->).
  unfold first_mismatch, status_checks. cbn [find fst snd].
  change (index (Arr [Buf v; Buf n; Buf td; Buf hash; Buf num; Buf gen]) 0)
    with (Item (Buf v)).
  change (index (Arr [Buf v; Buf n; Buf td; Buf hash; Buf num; Buf gen]) 1)
    with (Item (Buf n)).
  change (index (Arr [Buf v; Buf n; Buf td; Buf hash; Buf num; Buf gen]) 5)
    with (Item (Buf gen)).
  pose proof (equal_values_buf v (index p 0)) as E0.
  pose proof (equal_values_buf n (index p 1)) as E1.
  pose proof (equal_values_buf gen (index p 5)) as E5.
  destruct (equal_values (Item (Buf v)) (index p 0)); cbn [negb];
    [|split; [discriminate | intros (K & _ & _); now apply E0 in K]].
  destruct (equal_values (Item (Buf n)) (index p 1)); cbn [negb];
    [|split; [discriminate | intros (_ & K & _); now apply E1 in K]].
  destruct (equal_values (Item (Buf gen)) (index p 5)); cbn [negb];
    [|split; [discriminate | intros (_ & _ & K); now apply E5 in K]].
  split; [intros _ | reflexivity].
  repeat split; [apply E0 | apply E1 | apply E5]; reflexivity.
Qed.

(** A failing comparison names a field on which the records differ. *)
Lemma first_mismatch_some (l p : item) (c : nat * string) :
  local_record l ->
  first_mismatch l p = Some c ->
  In c status_checks /\ index l (fst c) <> index p (fst c).
Proof.
  intros Hl Hc. apply find_some in Hc. destruct Hc as [Hin Hneq].
  split; [assumption|]. intros Heq.
  destruct Hl as (v & n & td & hash & num & gen & ->).
  destruct Hin as [<- | [<- | [<- | []]]]; cbn [fst] in *;
    rewrite <- Heq in Hneq; simpl in Hneq;
    rewrite (proj2 (bytes_eqb_eq _ _) eq_refl) in Hneq; discriminate.
Qed.

(** A record whose index 5 holds an item is a list of at least six items, so
    [Buffer.from] succeeds on its indices 2 to 5. *)
Lemma Buffer_from_item (x : item) (s : LES) :
  exists b, Buffer_from (Item x) s = ret b s /\ carried (Item x) b.
Proof.
  destruct x as [b | l]; eexists; split; reflexivity.
Qed.

Lemma index_5_item (p : item) (x : item) :
  index p 5 = Item x ->
  exists a b c, index p 2 = Item a /\ index p 3 = Item b /\ index p 4 = Item c.
Proof.
  destruct p as [b | l]; unfold index.
  - destruct (nth_error b 5); discriminate.
  - destruct l as [|a0 [|a1 [|a2 [|a3 [|a4 [|a5 rest]]]]]]; try discriminate.
    intros _. now exists a2, a3, a4.
Qed.

(** Passing comparisons: the timer is cleared and one ['status'] event is
    emitted, carrying the fields of the peer record. *)
Lemma handleStatus_match (s : LES) (l p : item) :
  _status s = Some l -> _peerStatus s = Some p ->
  local_record l ->
  first_mismatch l p = None ->
  exists e,
    summary_of p e
    /\ _handleStatus s =
       {| res := Return tt;
          final := set_timer (clearTimeout (_statusTimeoutId s)) s;
          effects := [ClearTimeout; EmitStatus e] |}.
Proof.
  intros Hl Hp Hrec Hnone.
  pose proof (proj1 (first_mismatch_none l p Hrec) Hnone) as (F0 & F1 & F5).
  assert (exists g, index p 5 = Item (Buf g)) as [g Hg].
  { destruct Hrec as (v & n & td & hash & num & gen & ->).
    exists gen. now rewrite <- F5. }
  destruct (index_5_item p (Buf g) Hg) as (a & b & c & Ha & Hb & Hc).
  revert Hnone. unfold _handleStatus, first_mismatch, status_checks.
  cbn [find fst snd]. run_monad. rewrite Hl, Hp.
  destruct (equal_values (index l 0) (index p 0)); cbn [negb];
    [|discriminate].
  destruct (equal_values (index l 1) (index p 1)); cbn [negb];
    [|discriminate].
  destruct (equal_values (index l 5) (index p 5)); cbn [negb];
    [|discriminate].
  intros _. rewrite Ha, Hb, Hc, Hg.
  destruct a as [a|a], b as [b|b], c as [c|c];
    cbv [Buffer_from ret]; cbn [app];
    (eexists; split; [|reflexivity]);
    unfold summary_of; cbn [networkId headTd headHash headNum genesisHash];
    rewrite Ha, Hb, Hc, Hg; repeat split.
Qed.

(** [sendStatus] with a local record already stored returns at once. *)
Lemma sendStatus_again (status : status_arg) (s : LES) (l : item) :
  _status s = Some l -> sendStatus status s = ret tt s.
Proof.
  intros Hl. unfold sendStatus. run_monad. now rewrite Hl.
Qed.

Lemma built_record_local (s : LES) (status : status_arg) :
  local_record (built_record s status).
Proof. unfold built_record. repeat eexists. Qed.

(** The first [sendStatus]: the record is stored and transmitted, then the
    negotiation check runs. *)
Lemma sendStatus_first (status : status_arg) (s : LES) :
  _status s = None ->
  let l := built_record s status in
  let r := _handleStatus (set_status (Some l) s) in
  sendStatus status s =
  {| res := res r;
     final := final r;
     effects := Send STATUS (rlp_encode l) :: effects r |}.
Proof.
  intros Hl. cbv zeta. unfold sendStatus.
  fold (built_record s status).
  cbv [bind get modify call]. rewrite Hl.
  rewrite (getStatusString_local _ _ (built_record_local s status)).
  cbv [ret].
  now destruct (_handleStatus _).
Qed.

(** A STATUS message on a session that already holds a peer record. *)
Lemma receive_status_again (data : bytes) (payload p : item) (s : LES) :
  rlp_decode data = Some payload ->
  _peerStatus s = Some p ->
  _handleMessage STATUS data s
  = throw (AssertionError "Uncontrolled status message") s.
Proof.
  intros Hd Hp. unfold _handleMessage. rewrite Hd.
  change (STATUS =? STATUS) with true. run_monad. rewrite Hp.
  destruct p; reflexivity.
Qed.

(** The first STATUS message: the payload is stored; then either the log
    string cannot be built, the call throws and the stored record has no item
    at index 5, or the negotiation check runs. *)
Lemma receive_status_first (data : bytes) (payload : item) (s : LES) :
  rlp_decode data = Some payload ->
  _peerStatus s = None ->
  let s1 := set_peerStatus (Some payload) s in
  ((forall x, index payload 5 <> Item x)
   /\ exists err, _handleMessage STATUS data s = throw err s1)
  \/ _handleMessage STATUS data s = _handleStatus s1.
Proof.
  intros Hd Hp. cbv zeta. unfold _handleMessage. rewrite Hd.
  change (STATUS =? STATUS) with true.
  cbv [lift bind ret get assertEq modify]. rewrite Hp.
  cbn [nullable equal_values].
  destruct (getStatusString_outcome payload (set_peerStatus (Some payload) s))
    as [(a & b & c & d & e & f & rest & _ & ->) | (Hx & err & ->)].
  - right. cbv [ret]. now destruct (_handleStatus _).
  - left. split; [assumption|]. exists err. reflexivity.
Qed.

(** The negotiation check on a session holding both records, the local one
    well shaped. *)
Lemma handleStatus_checked (s0 s : LES) (l p : item) :
  ~ exchanged s0 ->
  _statusTimeoutId s = _statusTimeoutId s0 ->
  _status s = Some l -> _peerStatus s = Some p -> local_record l ->
  step_shape s0 (_handleStatus s).
Proof.
  intros Hn Ht Hl Hp Hrec.
  destruct (first_mismatch l p) as [c|] eqn:Hm.
  - rewrite (handleStatus_mismatch s l p c Hl Hp Hm).
    apply shape_checked with (l := l) (p := p); cbn [res final effects];
      trivial.
    + cbn. now rewrite Ht.
    + rewrite Hm. now split.
  - destruct (handleStatus_match s l p Hl Hp Hrec Hm) as (e & He & ->).
    apply shape_checked with (l := l) (p := p); cbn [res final effects];
      trivial.
    + cbn. now rewrite Ht.
    + rewrite Hm. split; [reflexivity|]. now exists e.
Qed.

(** Every event has one of the three shapes. *)
Lemma step_shape_of_step (o : op) (s : LES) :
  recorded s -> step_shape s (step o s).
Proof.
  intros Hrec. destruct o as [code data | status | code payload | ];
    cbn [step].
  - (* _handleMessage *)
    destruct (rlp_decode data) as [payload|] eqn:Hd;
      [|rewrite (receive_malformed code data s Hd); now apply shape_quiet].
    destruct (code =? STATUS) eqn:Hc.
    + apply Z.eqb_eq in Hc. subst code.
      destruct (_peerStatus s) as [p|] eqn:Hp.
      { rewrite (receive_status_again data payload p s Hd Hp).
        now apply shape_quiet. }
      assert (Hn : ~ exchanged s) by (intros [_ K]; now apply K).
      destruct (receive_status_first data payload s Hd Hp)
        as [(Hx & err & ->) | ->].
      * apply shape_stored with (l := _status s) (p := Some payload);
          cbn [res final effects throw]; trivial; try tauto.
        intros x y Hl [= <-] Hnone.
        apply (first_mismatch_none x payload (Hrec x Hl)) in Hnone.
        destruct Hnone as (_ & _ & K5).
        destruct (Hrec x Hl) as (v & n & td & hash & num & gen & ->).
        apply (Hx (Buf gen)). now rewrite <- K5.
      * destruct (_status s) as [l|] eqn:Hl.
        -- apply handleStatus_checked with (l := l) (p := payload);
             trivial. now apply Hrec.
        -- rewrite handleStatus_absent by (now left).
           apply shape_stored with (l := None) (p := Some payload);
             cbn [res final effects ret]; trivial; try tauto.
           ++ now left.
           ++ discriminate.
    + rewrite (handleMessage_unfold code data payload s Hc Hd).
      apply shape_quiet; cbn [res final effects]; trivial;
        now destruct (isCodeAllowed (_version s) code).
  - (* sendStatus *)
    destruct (_status s) as [l|] eqn:Hl.
    { rewrite (sendStatus_again status s l Hl). now apply shape_quiet. }
    assert (Hn : ~ exchanged s) by (intros [K _]; now apply K).
    rewrite (sendStatus_first status s Hl). cbv zeta.
    set (l := built_record s status).
    destruct (_peerStatus s) as [p|] eqn:Hp.
    + assert (Hs : step_shape s (_handleStatus (set_status (Some l) s))).
      { apply handleStatus_checked with (l := l) (p := p); trivial.
        apply built_record_local. }
      destruct Hs as [ | | l' p' ? E1 E2 E3 E4 E5 E6];
        [ now apply shape_quiet
        | eapply shape_stored; cbn [res final effects]; eauto
        | apply shape_checked with (l := l') (p := p');
          cbn [res final effects status_events clear_calls]; trivial ].
    + rewrite handleStatus_absent by (now right).
      apply shape_stored with (l := Some l) (p := None);
        cbn [res final effects ret]; trivial; try tauto.
      * right. split; [assumption|]. exists l. split; [reflexivity|].
        apply built_record_local.
      * discriminate.
  - (* sendMessage *)
    rewrite sendMessage_unfold.
    apply shape_quiet; cbn [res final effects]; trivial;
      now destruct (send_outcome (_version s) code).
  - (* the timer callback *)
    unfold statusTimeout. run_monad.
    destruct (_statusTimeoutId s); now apply shape_quiet.
Qed.

(** *** Executions *)

Lemma inv_init (v : Z) : handshake_inv (new_LES v) [].
Proof.
  unfold handshake_inv, recorded. cbn.
  repeat split; try discriminate; auto.
Qed.

Lemma inv_step (o : op) (s : LES) (out : list effect) :
  handshake_inv s out ->
  handshake_inv (final (step o s)) (out ++ effects (step o s)).
Proof.
  intros (Hrec & Hev & Hle & Hz).
  destruct (step_shape_of_step o s Hrec)
    as [E1 E2 E3 E4 | l p Hn E1 E2 Hl Hp Hm E3 E4
        | l p Hn E1 E2 Hl Ht E4 Hm];
    unfold handshake_inv, recorded, exchanged;
    rewrite status_events_app, clear_calls_app.
  - rewrite E1, E2, E3, E4, app_nil_r, Nat.add_0_r. now repeat split.
  - assert (Ho : status_events out = []).
    { unfold exchanged in Hn.
      destruct (_status s), (_peerStatus s); trivial.
      exfalso. apply Hn. split; discriminate. }
    rewrite E1, E2, E3, E4, Ho, (Hz Hn). cbn [app Nat.add].
    split; [|split; [|split; [lia | reflexivity]]].
    + intros x Hx. destruct Hl as [-> | (_ & y & -> & Hy)].
      * now apply Hrec.
      * now injection Hx as <-.
    + destruct l as [x|], p as [y|]; trivial.
      specialize (Hm x y eq_refl eq_refl).
      now destruct (first_mismatch x y).
  - assert (Ho : status_events out = []).
    { unfold exchanged in Hn.
      destruct (_status s), (_peerStatus s); trivial.
      exfalso. apply Hn. split; discriminate. }
    rewrite E1, E2, E4, Ho, (Hz Hn). cbn [app Nat.add].
    split; [|split; [|split; [lia|]]].
    + now intros x [= <-].
    + destruct (first_mismatch l p); tauto.
    + intros K. exfalso. apply K. split; discriminate.
Qed.

Lemma inv_run (ops : list op) (s : LES) (out : list effect) :
  handshake_inv s out ->
  handshake_inv (fst (run ops s)) (out ++ snd (run ops s)).
Proof.
  revert s out. induction ops as [|o ops IH]; intros s out Hinv; cbn [run].
  - cbn [fst snd]. now rewrite app_nil_r.
  - specialize (IH _ _ (inv_step o s out Hinv)).
    destruct (run ops (final (step o s))) as [s' out'].
    cbn [fst snd] in *. now rewrite app_assoc.
Qed.

(** Every execution from the constructor maintains the invariant. *)
Lemma inv_reachable (v : Z) (ops : list op) :
  handshake_inv (fst (run ops (new_LES v))) (snd (run ops (new_LES v))).
Proof. exact (inv_run ops (new_LES v) [] (inv_init v)). Qed.

(** Once both records are stored nothing touches the handshake any more:
    the records stay, no ['status'] event is emitted, the timer is not
    cleared. *)
Lemma quiet_after_exchange (ops : list op) (s : LES) :
  recorded s -> exchanged s ->
  _status (fst (run ops s)) = _status s
  /\ _peerStatus (fst (run ops s)) = _peerStatus s
  /\ status_events (snd (run ops s)) = []
  /\ clear_calls (snd (run ops s)) = 0%nat.
Proof.
  revert s. induction ops as [|o ops IH]; intros s Hrec Hex; cbn [run].
  - now repeat split.
  - destruct (step_shape_of_step o s Hrec)
      as [E1 E2 E3 E4 | l p Hn | l p Hn]; [|contradiction|contradiction].
    assert (Hrec' : recorded (final (step o s)))
      by (unfold recorded; now rewrite E1).
    assert (Hex' : exchanged (final (step o s)))
      by (unfold exchanged; now rewrite E1, E2).
    destruct (IH _ Hrec' Hex') as (I1 & I2 & I3 & I4).
    destruct (run ops (final (step o s))) as [s' out'].
    cbn [fst snd] in *.
    rewrite status_events_app, clear_calls_app, E3, E4, I1, I2, I3, I4.
    now repeat split.
Qed.


(** The negotiation check clears the timer first, whatever follows. *)
Lemma handleStatus_timer (s : LES) (l p : item) :
  _status s = Some l -> _peerStatus s = Some p ->
  final (_handleStatus s) = set_timer (clearTimeout (_statusTimeoutId s)) s
  /\ exists rest,
      effects (_handleStatus s) = ClearTimeout :: rest
      /\ clear_calls rest = 0%nat.
Proof.
  intros Hl Hp. unfold _handleStatus. run_monad. rewrite Hl, Hp.
  repeat match goal with
         | |- context [equal_values ?a ?b] => destruct (equal_values a b)
         end;
    try (split; [reflexivity | now exists []]).
  unfold Buffer_from.
  destruct (index p 2) as [| | ? | [?|?]];
    try (split; [reflexivity | now exists []]).
  all: destruct (index p 3) as [| | ? | [?|?]];
    try (split; [reflexivity | now exists []]).
  all: destruct (index p 4) as [| | ? | [?|?]];
    try (split; [reflexivity | now exists []]).
  all: destruct (index p 5) as [| | ? | [?|?]];
    try (split; [reflexivity | now exists []]).
  all: split; [reflexivity | eexists; split; reflexivity].
Qed.

(** *** The handshake statements *)

(** C1: with both records stored, the negotiation check compares index 0
    (protocol version), index 1 (network id) and index 5 (genesis) of the
    local and the peer record.  If the records differ on one of them, the check
    throws the assertion error labelled with a field on which they differ (the
    first in that order), it emits no ['status'] event, and no later event of
    the session emits one: the session never becomes negotiated, which the
    class marks by that event only. *)
Theorem handleStatus_rejects_mismatch (s : LES) (l p : item) :
  _status s = Some l ->
  _peerStatus s = Some p ->
  local_record l ->
  index l 0 <> index p 0 \/ index l 1 <> index p 1 \/ index l 5 <> index p 5 ->
  let r := _handleStatus s in
  (exists c,
      In c status_checks
      /\ index l (fst c) <> index p (fst c)
      /\ res r = Throw (AssertionError (snd c)))
  /\ status_events (effects r) = []
  /\ forall ops, status_events (snd (run ops (final r))) = [].
Proof.
  intros Hl Hp Hrec Hdiff. cbv zeta.
  destruct (first_mismatch l p) as [c|] eqn:Hm.
  2:{ apply (first_mismatch_none l p Hrec) in Hm. tauto. }
  rewrite (handleStatus_mismatch s l p c Hl Hp Hm). cbn [res final effects].
  destruct (first_mismatch_some l p c Hrec Hm) as [Hin Hne].
  split; [now exists c|]. split; [reflexivity|].
  intros ops.
  apply (quiet_after_exchange ops
           (set_timer (clearTimeout (_statusTimeoutId s)) s)).
  - unfold recorded. cbn [set_timer _status]. rewrite Hl. now intros x [= <-].
  - unfold exchanged. cbn [set_timer _status _peerStatus].
    rewrite Hl, Hp. split; discriminate.
Qed.

(** C2, as the code has it: on a session that already holds a peer record,
    a further STATUS message whose payload decodes is refused with the
    assertion error 'Uncontrolled status message'; the stored peer record, and
    the whole session, are left as they were, and nothing is emitted.  (A
    payload that does not decode fails earlier, with the decoding error.) *)
Theorem second_status_rejected (data : bytes) (payload p : item) (s : LES) :
  rlp_decode data = Some payload ->
  _peerStatus s = Some p ->
  let r := _handleMessage STATUS data s in
  res r = Throw (AssertionError "Uncontrolled status message")
  /\ _peerStatus (final r) = Some p
  /\ final r = s
  /\ effects r = [].
Proof.
  intros Hd Hp. cbv zeta.
  rewrite (receive_status_again data payload p s Hd Hp).
  cbn [throw res final effects]. now repeat split.
Qed.

(** C3: on a session that already holds its local record, [sendStatus]
    returns without doing anything: the local record keeps its value, no
    field of the session changes, and nothing is handed to the transport. *)
Theorem sendStatus_once (status : status_arg) (s : LES) (l : item) :
  _status s = Some l ->
  let r := sendStatus status s in
  res r = Return tt
  /\ _status (final r) = Some l
  /\ final r = s
  /\ sent (effects r) = []
  /\ effects r = [].
Proof.
  intros Hl. cbv zeta. rewrite (sendStatus_again status s l Hl).
  cbn [ret res final effects]. now repeat split.
Qed.

(** Any call of [sendStatus] leaves a local record, so a second call in a row
    changes nothing. *)
Lemma sendStatus_twice (status status' : status_arg) (s : LES) :
  let r := sendStatus status s in
  sendStatus status' (final r) = ret tt (final r).
Proof.
  cbv zeta. destruct (_status s) as [l|] eqn:Hl.
  - rewrite (sendStatus_again status s l Hl). cbn [ret final].
    apply (sendStatus_again status' s l Hl).
  - rewrite (sendStatus_first status s Hl). cbv zeta. cbn [final].
    set (l := built_record s status).
    destruct (_peerStatus s) as [p|] eqn:Hp.
    + destruct (handleStatus_timer (set_status (Some l) s) l p eq_refl Hp)
        as [-> _].
      now apply sendStatus_again with (l := l).
    + rewrite handleStatus_absent by (now right).
      now apply sendStatus_again with (l := l).
Qed.

(** C4, as the code has it: the timer is pending from the constructor on and
    [clearTimeout] is called at most once in an execution; the negotiation
    check, run with both records stored, calls it before the comparisons, so
    the timer is no longer pending after the check whether the comparisons
    pass or throw. *)
Theorem deadline_cleared_before_comparison
    (v : Z) (ops : list op) (s : LES) (l p : item) :
  _status s = Some l ->
  _peerStatus s = Some p ->
  let r := _handleStatus s in
  (_statusTimeoutId (new_LES v) = Armed
   /\ (clear_calls (snd (run ops (new_LES v))) <= 1)%nat)
  /\ _statusTimeoutId (final r) = clearTimeout (_statusTimeoutId s)
  /\ _statusTimeoutId (final r) <> Armed
  /\ exists rest, effects r = ClearTimeout :: rest /\ clear_calls rest = 0%nat.
Proof.
  intros Hl Hp. cbv zeta.
  destruct (handleStatus_timer s l p Hl Hp) as [-> Heff].
  split; [split; [reflexivity | apply (inv_reachable v ops)]|].
  cbn [set_timer _statusTimeoutId].
  split; [reflexivity|]. split; [|assumption].
  now destruct (_statusTimeoutId s).
Qed.

(** C8: on every execution from the constructor that leaves both records
    stored and equal on version, network id and genesis, the ['status'] event
    has been emitted exactly once, and it carries the network id, head weight,
    head hash, head number and genesis hash of the stored peer record. *)
Theorem status_event_once (v : Z) (ops : list op) (l p : item) :
  _status (fst (run ops (new_LES v))) = Some l ->
  _peerStatus (fst (run ops (new_LES v))) = Some p ->
  index l 0 = index p 0 ->
  index l 1 = index p 1 ->
  index l 5 = index p 5 ->
  exists e,
    status_events (snd (run ops (new_LES v))) = [e] /\ summary_of p e.
Proof.
  intros Hl Hp F0 F1 F5.
  destruct (inv_reachable v ops) as (Hrec & Hev & _).
  rewrite Hl, Hp in Hev.
  rewrite (proj2 (first_mismatch_none l p (Hrec l Hl)) (conj F0 (conj F1 F5)))
    in Hev.
  exact Hev.
Qed.

End Handshake.

(* ================================================================== *)
(** ** The session over its lifetime *)

Section Lifetime.
Context `{Collaborators}.

Ltac run_monad :=
  cbv [bind ret throw get modify call lift clear_statusTimeout assertEq];
  cbn [res final effects app].

(** The negotiation check, in full: nothing without both records; with
    both, the timer is cleared and then either the call throws or the
    ['status'] event is emitted. *)
Lemma handleStatus_cases (s : LES) :
  _handleStatus s = ret tt s
  \/ exists l p,
      _status s = Some l /\ _peerStatus s = Some p
      /\ final (_handleStatus s)
         = set_timer (clearTimeout (_statusTimeoutId s)) s
      /\ ((exists err, res (_handleStatus s) = Throw err
                       /\ effects (_handleStatus s) = [ClearTimeout])
          \/ (exists e, res (_handleStatus s) = Return tt
                        /\ effects (_handleStatus s)
                           = [ClearTimeout; EmitStatus e])).
Proof.
  destruct (_status s) as [l|] eqn:Hl;
    [|left; apply handleStatus_absent; now left].
  destruct (_peerStatus s) as [p|] eqn:Hp;
    [|left; apply handleStatus_absent; now right].
  right. exists l, p. split; [reflexivity|]. split; [reflexivity|].
  unfold _handleStatus. run_monad. rewrite Hl, Hp.
  repeat match goal with
         | |- context [equal_values ?a ?b] => destruct (equal_values a b)
         end;
    try (split; [reflexivity | left; eexists; split; reflexivity]).
  unfold Buffer_from.
  destruct (index p 2) as [| | ? | [?|?]];
    try (split; [reflexivity | left; eexists; split; reflexivity]).
  all: destruct (index p 3) as [| | ? | [?|?]];
    try (split; [reflexivity | left; eexists; split; reflexivity]).
  all: destruct (index p 4) as [| | ? | [?|?]];
    try (split; [reflexivity | left; eexists; split; reflexivity]).
  all: destruct (index p 5) as [| | ? | [?|?]];
    try (split; [reflexivity | left; eexists; split; reflexivity]).
  all: split; [reflexivity | right; eexists; split; reflexivity].
Qed.

(** The negotiation check leaves the version and both records alone. *)
Lemma handleStatus_frame (s : LES) :
  _version (final (_handleStatus s)) = _version s
  /\ _status (final (_handleStatus s)) = _status s
  /\ _peerStatus (final (_handleStatus s)) = _peerStatus s
  /\ (_statusTimeoutId (final (_handleStatus s)) = _statusTimeoutId s
      \/ _statusTimeoutId (final (_handleStatus s))
         = clearTimeout (_statusTimeoutId s))
  /\ Forall (fun e => e = ClearTimeout \/ exists x, e = EmitStatus x)
            (effects (_handleStatus s)).
Proof.
  destruct (handleStatus_cases s)
    as [-> | (l & p & _ & _ & -> & [(err & _ & ->) | (e & _ & ->)])];
    cbn [ret final effects set_timer _version _status _peerStatus
         _statusTimeoutId];
    (split; [reflexivity|]); (split; [reflexivity|]);
    (split; [reflexivity|]); (split; [auto|]);
    repeat (apply Forall_cons;
            [first [now left | right; eexists; reflexivity]|]);
    apply Forall_nil.
Qed.

Lemma handshake_effects_from (s s1 : LES) (o : op) :
  (exists data, o = Receive STATUS data)
  \/ (exists status, o = SendStatus status) ->
  Forall (effect_from s o) (effects (_handleStatus s1)).
Proof.
  intros Ho. destruct (handleStatus_frame s1) as (_ & _ & _ & _ & Hall).
  eapply Forall_impl; [|exact Hall].
  intros e [-> | [x ->]]; exact Ho.
Qed.

(** What one event may change and emit: it never changes the version; it
    changes the local record only when [sendStatus] stores the one it built
    in an empty slot, the peer record only when a STATUS message fills an
    empty slot with its decoded payload, the timer only by [clearTimeout] or
    by its expiry; and each effect has the origin [effect_from] names. *)
Lemma step_footprint (o : op) (s : LES) :
  _version (final (step o s)) = _version s
  /\ (_status (final (step o s)) = _status s
      \/ _status s = None
         /\ exists status,
             o = SendStatus status
             /\ _status (final (step o s)) = Some (built_record s status))
  /\ (_peerStatus (final (step o s)) = _peerStatus s
      \/ _peerStatus s = None
         /\ exists data payload,
             o = Receive STATUS data
             /\ rlp_decode data = Some payload
             /\ _peerStatus (final (step o s)) = Some payload)
  /\ (_statusTimeoutId (final (step o s)) = _statusTimeoutId s
      \/ _statusTimeoutId (final (step o s))
         = clearTimeout (_statusTimeoutId s)
      \/ o = TimerExpires
         /\ _statusTimeoutId s = Armed
         /\ _statusTimeoutId (final (step o s)) = Fired)
  /\ Forall (effect_from s o) (effects (step o s)).
Proof.
  destruct o as [code data | status | code payload | ]; cbn [step].
  - (* _handleMessage *)
    destruct (rlp_decode data) as [payload|] eqn:Hd.
    2:{ rewrite (receive_malformed code data s Hd). cbn [throw final effects].
        repeat split; auto. }
    destruct (code =? STATUS) eqn:Hc.
    + apply Z.eqb_eq in Hc. subst code.
      destruct (_peerStatus s) as [p|] eqn:Hp.
      { rewrite (receive_status_again data payload p s Hd Hp).
        cbn [throw final effects]. repeat split; auto. }
      set (s1 := set_peerStatus (Some payload) s).
      assert (Hst : (exists data0, Receive STATUS data = Receive STATUS data0)
                    \/ (exists status, Receive STATUS data = SendStatus status))
        by (left; now exists data).
      destruct (receive_status_first data payload s Hd Hp)
        as [(_ & err & ->) | ->]; fold s1.
      * cbn [throw final effects]. repeat split; auto.
        right. split; [reflexivity|]. now exists data, payload.
      * destruct (handleStatus_frame s1) as (Fv & Fl & Fp & Ft & _).
        rewrite Fv, Fl, Fp.
        split; [reflexivity|]. split; [now left|].
        split; [right; split; [reflexivity|]; now exists data, payload|].
        split; [destruct Ft as [-> | ->]; auto|].
        now apply handshake_effects_from.
    + rewrite (handleMessage_unfold code data payload s Hc Hd).
      cbn [final effects]. repeat split; auto.
      destruct (isCodeAllowed (_version s) code) eqn:Ha; [|constructor].
      constructor; [|constructor]. cbn [effect_from].
      repeat split; trivial. now apply Z.eqb_neq.
  - (* sendStatus *)
    destruct (_status s) as [l|] eqn:Hl.
    { rewrite (sendStatus_again status s l Hl). cbn [ret final effects].
      repeat split; auto. }
    rewrite (sendStatus_first status s Hl). cbv zeta. cbn [final effects].
    set (s1 := set_status (Some (built_record s status)) s).
    destruct (handleStatus_frame s1) as (Fv & Fl & Fp & Ft & _).
    rewrite Fv, Fl, Fp.
    split; [reflexivity|].
    split; [right; split; [reflexivity|]; now exists status|].
    split; [now left|].
    split; [destruct Ft as [-> | ->]; auto|].
    constructor.
    + cbn [effect_from]. now repeat split.
    + apply handshake_effects_from. right. now exists status.
  - (* sendMessage *)
    rewrite sendMessage_unfold. cbn [final effects]. repeat split; auto.
    pose proof (send_outcome_allowed (_version s) code) as Ha.
    destruct (send_outcome (_version s) code) as [[]|e]; [|constructor].
    constructor; [|constructor]. cbn [effect_from].
    apply proj2 in Ha. specialize (Ha eq_refl).
    apply andb_true_iff in Ha. destruct Ha as [Ha Hs].
    repeat split; trivial.
    apply negb_true_iff in Hs. now apply Z.eqb_neq.
  - (* the timer callback *)
    unfold statusTimeout. run_monad.
    destruct (_statusTimeoutId s) eqn:Ht; cbn [final effects set_timer
      _version _status _peerStatus _statusTimeoutId];
      repeat split; auto;
      try (right; right; now repeat split);
      repeat constructor; assumption.
Qed.

(** *** Executions *)

Lemma sent_app (a b : list effect) : sent (a ++ b) = sent a ++ sent b.
Proof.
  induction a as [|e a IH]; [reflexivity|].
  destruct e; simpl; try assumption. now rewrite IH.
Qed.

Lemma message_events_app (a b : list effect) :
  message_events (a ++ b) = message_events a ++ message_events b.
Proof.
  induction a as [|e a IH]; [reflexivity|].
  destruct e; simpl; try assumption. now rewrite IH.
Qed.

Lemma disconnects_app (a b : list effect) :
  disconnects (a ++ b) = (disconnects a + disconnects b)%nat.
Proof.
  induction a as [|e a IH]; [reflexivity|].
  destruct e; simpl; try assumption. now rewrite IH.
Qed.

Lemma status_sent_app (a b : list effect) :
  status_sent (a ++ b) = status_sent a ++ status_sent b.
Proof. unfold status_sent. now rewrite sent_app, filter_app. Qed.

Lemma run_cons (o : op) (ops : list op) (s : LES) :
  run (o :: ops) s
  = (fst (run ops (final (step o s))),
     effects (step o s) ++ snd (run ops (final (step o s)))).
Proof.
  cbn [run]. now destruct (run ops (final (step o s))).
Qed.

(** The version and the stored records over an execution. *)
Lemma records_kept (ops : list op) (s : LES) :
  _version (fst (run ops s)) = _version s
  /\ (_status s = None \/ _status (fst (run ops s)) = _status s)
  /\ (_peerStatus s = None \/ _peerStatus (fst (run ops s)) = _peerStatus s).
Proof.
  revert s. induction ops as [|o ops IH]; intros s.
  - cbn. auto.
  - rewrite run_cons. cbn [fst].
    destruct (IH (final (step o s))) as (Iv & Il & Ip).
    destruct (step_footprint o s) as (Fv & Fl & Fp & _).
    split; [congruence|]. split.
    + destruct Fl as [Fl | [Fl _]]; [|now left].
      rewrite Fl in Il. destruct Il as [Il | Il]; [now left|].
      right. congruence.
    + destruct Fp as [Fp | [Fp _]]; [|now left].
      rewrite Fp in Ip. destruct Ip as [Ip | Ip]; [now left|].
      right. congruence.
Qed.

(** X1: over any execution, from any session, the version stays what it
    was, and a stored record is never replaced: each of the two records is
    either still absent at the start or the same at the end. *)
Theorem records_write_once (ops : list op) (s : LES) :
  _version (fst (run ops s)) = _version s
  /\ (_status s = None \/ _status (fst (run ops s)) = _status s)
  /\ (_peerStatus s = None \/ _peerStatus (fst (run ops s)) = _peerStatus s).
Proof. exact (records_kept ops s). Qed.

(** Every effect of an execution has its origin on a session of the same
    version. *)
Lemma effects_have_origin (ops : list op) (s : LES) :
  Forall (effect_at (_version s)) (snd (run ops s)).
Proof.
  revert s. induction ops as [|o ops IH]; intros s.
  - constructor.
  - rewrite run_cons. cbn [snd]. apply Forall_app.
    destruct (step_footprint o s) as (Fv & _ & _ & _ & Fe). split.
    + eapply Forall_impl; [|exact Fe]. intros e He. now exists s, o.
    + specialize (IH (final (step o s))). now rewrite Fv in IH.
Qed.

(** X2: a session of a positive version only hands the transport codes
    allowed at its version: over any execution, every message given to
    [_send] carries a code of the table whose minimum version is at most the
    session's. *)
Theorem sent_codes_allowed (ops : list op) (s : LES) :
  1 <= _version s ->
  Forall (fun m => isCodeAllowed (_version s) (fst m) = true)
         (sent (snd (run ops s))).
Proof.
  intros Hv. pose proof (effects_have_origin ops s) as Hall.
  induction Hall as [|e out He _ IH]; [constructor|].
  destruct e; cbn [sent]; trivial. constructor; [|exact IH].
  destruct He as (s0 & o & Hs0 & He). cbn [effect_from fst] in *.
  destruct o as [ | status | code' payload | ]; try contradiction.
  - destruct He as (_ & -> & _). unfold isCodeAllowed. cbn.
    now apply Z.leb_le.
  - destruct He as (_ & _ & Ha & _). now rewrite <- Hs0.
Qed.

(** X3: over any execution, every ['message'] event carries a code other
    than STATUS that is allowed at the session's version: a STATUS message, a
    code of a later version and an unknown code never reach the listeners. *)
Theorem message_events_allowed (ops : list op) (s : LES) :
  Forall (fun m => fst m <> STATUS
                   /\ isCodeAllowed (_version s) (fst m) = true)
         (message_events (snd (run ops s))).
Proof.
  pose proof (effects_have_origin ops s) as Hall.
  induction Hall as [|e out He _ IH]; [constructor|].
  destruct e; cbn [message_events]; trivial. constructor; [|exact IH].
  destruct He as (s0 & o & Hs0 & He). cbn [effect_from fst] in *.
  destruct o as [code' data | | | ]; try contradiction.
  destruct He as (_ & Hc & Ha & _). rewrite <- Hs0. now split.
Qed.

(** The negotiation check hands nothing to the transport and requests no
    disconnection. *)
Lemma handleStatus_silent (s : LES) :
  sent (effects (_handleStatus s)) = []
  /\ disconnects (effects (_handleStatus s)) = 0%nat
  /\ message_events (effects (_handleStatus s)) = [].
Proof.
  destruct (handleStatus_cases s)
    as [-> | (l & p & _ & _ & _ & [(err & _ & ->) | (e & _ & ->)])];
    now repeat split.
Qed.

(** The STATUS messages one event hands to the transport: the encoded
    record, once, when [sendStatus] fills the empty slot; none otherwise. *)
Lemma step_status_sent (o : op) (s : LES) :
  status_sent (effects (step o s))
  = match _status s, o with
    | None, SendStatus status =>
        [(STATUS, rlp_encode (built_record s status))]
    | _, _ => []
    end.
Proof.
  assert (Hno : forall s1, status_sent (effects (_handleStatus s1)) = []).
  { intros s1. unfold status_sent.
    now rewrite (proj1 (handleStatus_silent s1)). }
  destruct o as [code data | status | code payload | ]; cbn [step].
  - assert (Hgoal : status_sent (effects (_handleMessage code data s)) = []).
    { destruct (rlp_decode data) as [payload|] eqn:Hd;
        [|now rewrite (receive_malformed code data s Hd)].
      destruct (code =? STATUS) eqn:Hc.
      - apply Z.eqb_eq in Hc. subst code.
        destruct (_peerStatus s) as [p|] eqn:Hp;
          [now rewrite (receive_status_again data payload p s Hd Hp)|].
        destruct (receive_status_first data payload s Hd Hp)
          as [(_ & err & ->) | ->]; [reflexivity | apply Hno].
      - rewrite (handleMessage_unfold code data payload s Hc Hd).
        cbn [effects]. now destruct (isCodeAllowed (_version s) code). }
    rewrite Hgoal. now destruct (_status s).
  - destruct (_status s) as [l|] eqn:Hl;
      [now rewrite (sendStatus_again status s l Hl)|].
    rewrite (sendStatus_first status s Hl). cbv zeta. cbn [effects].
    change (Send STATUS (rlp_encode (built_record s status))
              :: effects (_handleStatus
                            (set_status (Some (built_record s status)) s)))
      with ([Send STATUS (rlp_encode (built_record s status))]
              ++ effects (_handleStatus
                            (set_status (Some (built_record s status)) s))).
    rewrite status_sent_app, Hno. reflexivity.
  - rewrite sendMessage_unfold. cbn [effects].
    assert (Hgoal : status_sent
                      match send_outcome (_version s) code with
                      | Return _ => [Send code (rlp_encode payload)]
                      | Throw _ => []
                      end = []).
    { unfold send_outcome, status_sent.
      destruct (code =? STATUS) eqn:Hc; [reflexivity|].
      destruct (min_version code_table code) as [m|]; [|reflexivity].
      destruct (m <=? _version s); [|reflexivity].
      cbn [sent filter fst]. now rewrite Hc. }
    rewrite Hgoal. now destruct (_status s).
  - unfold statusTimeout. run_monad.
    destruct (_statusTimeoutId s), (_status s); reflexivity.
Qed.

(** The first [sendStatus] stores the record it builds. *)
Lemma sendStatus_stores (status : status_arg) (s : LES) :
  _status s = None ->
  _status (final (sendStatus status s)) = Some (built_record s status)
  /\ _peerStatus (final (sendStatus status s)) = _peerStatus s.
Proof.
  intros Hl. rewrite (sendStatus_first status s Hl). cbv zeta. cbn [final].
  destruct (handleStatus_frame (set_status (Some (built_record s status)) s))
    as (_ & -> & -> & _).
  now split.
Qed.

(** X4: the STATUS message is handed to the transport at most once in a
    session.  Over any execution from the constructor, the STATUS messages
    given to [_send] are: the encoding of the stored local record, once, if
    one is stored; none if none is. *)
Theorem status_sent_once (v : Z) (ops : list op) :
  status_sent (snd (run ops (new_LES v)))
  = match _status (fst (run ops (new_LES v))) with
    | Some l => [(STATUS, rlp_encode l)]
    | None => []
    end.
Proof.
  assert (Hgen : forall ops s,
             status_sent (snd (run ops s))
             = match _status s with
               | Some _ => []
               | None =>
                   match _status (fst (run ops s)) with
                   | Some l => [(STATUS, rlp_encode l)]
                   | None => []
                   end
               end).
  { clear ops. intros ops. induction ops as [|o ops IH]; intros s.
    - cbn. now destruct (_status s).
    - rewrite run_cons. cbn [fst snd].
      rewrite status_sent_app, step_status_sent, IH.
      destruct (step_footprint o s) as (_ & Fl & _).
      destruct (_status s) as [l|] eqn:Hl.
      + destruct Fl as [-> | [Fl _]]; [reflexivity | discriminate].
      + destruct o as [code data | status | code payload | ].
        2:{ cbn [step] in *.
            destruct (sendStatus_stores status s Hl) as [Fs _].
            rewrite Fs. cbn [app].
            destruct (records_kept ops (final (sendStatus status s)))
              as (_ & [K | ->] & _); [congruence|].
            now rewrite Fs. }
        all: destruct Fl as [-> | (_ & status & [=] & _)]; reflexivity. }
  exact (Hgen ops (new_LES v)).
Qed.

(** The disconnect requests of one event: one when the timer expires while
    pending, none otherwise; and an event never makes the timer pending. *)
Lemma step_disconnects (o : op) (s : LES) :
  disconnects (effects (step o s))
  = match o, _statusTimeoutId s with
    | TimerExpires, Armed => 1%nat
    | _, _ => 0%nat
    end
  /\ (_statusTimeoutId s <> Armed ->
      _statusTimeoutId (final (step o s)) <> Armed)
  /\ (o = TimerExpires -> _statusTimeoutId (final (step o s)) <> Armed).
Proof.
  destruct (step_footprint o s) as (_ & _ & _ & Ft & Fe).
  assert (Hnot : _statusTimeoutId s <> Armed ->
                 _statusTimeoutId (final (step o s)) <> Armed).
  { intros Hs. destruct Ft as [-> | [-> | (_ & _ & ->)]];
      [assumption | now destruct (_statusTimeoutId s) | discriminate]. }
  destruct o as [code data | status | code payload | ].
  1-3: split; [|split; [assumption | discriminate]];
    induction Fe as [|e out He _ IH]; [reflexivity|];
    destruct e; cbn [disconnects]; trivial;
    cbn [effect_from] in He; destruct He as [He _]; discriminate.
  cbn [step]. unfold statusTimeout. run_monad.
  destruct (_statusTimeoutId s) eqn:Es; cbn [final effects disconnects
    set_timer _statusTimeoutId];
    (split; [reflexivity|]); (split; [try assumption|]);
    try (intros _; rewrite ?Es; discriminate); try discriminate;
    intros K; now elim K.
Qed.

(** No disconnect request is made once the timer is no longer pending, and
    at most one before. *)
Lemma disconnect_at_most_once_aux (ops : list op) (s : LES) :
  _statusTimeoutId s = Armed /\ (disconnects (snd (run ops s)) <= 1)%nat
  \/ disconnects (snd (run ops s)) = 0%nat.
Proof.
  assert (Hzero : forall ops s, _statusTimeoutId s <> Armed ->
                                disconnects (snd (run ops s)) = 0%nat).
  { clear ops s. intros ops. induction ops as [|o ops IH]; intros s Hs.
    - reflexivity.
    - rewrite run_cons. cbn [snd]. rewrite disconnects_app.
      destruct (step_disconnects o s) as (Hd & Hk & _).
      rewrite Hd, (IH _ (Hk Hs)).
      destruct o; trivial. now destruct (_statusTimeoutId s). }
  destruct (_statusTimeoutId s) eqn:Es;
    [left; split; [reflexivity|] | right | right];
    try (apply Hzero; rewrite Es; discriminate).
  revert s Es. induction ops as [|o ops IH]; intros s Es.
  - cbn. lia.
  - rewrite run_cons. cbn [snd]. rewrite disconnects_app.
    destruct (step_disconnects o s) as (Hd & _ & Hk). rewrite Hd, Es.
    destruct (step_footprint o s) as (_ & _ & _ & Ft & _).
    destruct o as [code data | status | code payload | ].
    4:{ rewrite (Hzero ops _ (Hk eq_refl)). cbn. lia. }
    all: destruct (_statusTimeoutId (final (step _ s))) eqn:Ef;
      [ exact (IH _ Ef)
      | rewrite Hzero by (rewrite Ef; discriminate); cbn; lia
      | rewrite Hzero by (rewrite Ef; discriminate); cbn; lia ].
Qed.

(** X5: the session requests disconnection at most once.  Over any
    execution, from any session, at most one disconnect request is made, and
    none at all if the timer is not pending at the start (cleared by the
    negotiation check, or expired). *)
Theorem disconnect_at_most_once (ops : list op) (s : LES) :
  (disconnects (snd (run ops s)) <= 1)%nat
  /\ (_statusTimeoutId s = Armed
      \/ disconnects (snd (run ops s)) = 0%nat).
Proof.
  destruct (disconnect_at_most_once_aux ops s) as [[Ha Hle] | Hz].
  - split; [exact Hle | now left].
  - split; [lia | now right].
Qed.

(** X6: once the negotiation check has run with both records stored, the
    session never requests disconnection, whether the check passed or threw:
    a later expiry of the timer does nothing. *)
Theorem no_disconnect_after_check (ops : list op) (s : LES) (l p : item) :
  _status s = Some l ->
  _peerStatus s = Some p ->
  disconnects (snd (run ops (final (_handleStatus s)))) = 0%nat.
Proof.
  intros Hl Hp.
  destruct (handleStatus_timer s l p Hl Hp) as [Hf _].
  destruct (disconnect_at_most_once_aux ops (final (_handleStatus s)))
    as [K | K]; [|exact K].
  rewrite Hf in K. cbn [set_timer _statusTimeoutId] in K.
  now destruct (_statusTimeoutId s).
Qed.

(** X7: a ['status'] event is emitted only for compatible records.  Over
    any execution from the constructor, if a ['status'] event has been
    emitted, then both records are stored, they are equal on version, network
    id and genesis, the event carries the fields of the stored peer record,
    and it is the only ['status'] event of the execution. *)
Theorem status_event_only_on_match (v : Z) (ops : list op) (e : status_summary) :
  In e (status_events (snd (run ops (new_LES v)))) ->
  exists l p,
    _status (fst (run ops (new_LES v))) = Some l
    /\ _peerStatus (fst (run ops (new_LES v))) = Some p
    /\ index l 0 = index p 0
    /\ index l 1 = index p 1
    /\ index l 5 = index p 5
    /\ summary_of p e
    /\ status_events (snd (run ops (new_LES v))) = [e].
Proof.
  intros Hin. destruct (inv_reachable v ops) as (Hrec & Hev & _).
  destruct (_status (fst (run ops (new_LES v)))) as [l|] eqn:Hl;
    [|rewrite Hev in Hin; contradiction].
  destruct (_peerStatus (fst (run ops (new_LES v)))) as [p|] eqn:Hp;
    [|rewrite Hev in Hin; contradiction].
  destruct (first_mismatch l p) as [c|] eqn:Hm;
    [rewrite Hev in Hin; contradiction|].
  destruct Hev as (e' & He' & Hsum).
  rewrite He' in Hin. destruct Hin as [<- | []].
  apply (first_mismatch_none l p (Hrec l Hl)) in Hm.
  destruct Hm as (F0 & F1 & F5).
  now exists l, p.
Qed.

(** X8: the first [sendStatus] of a session stores the record
    [version, networkId, headTd, headHash, headNum, genesisHash] (the two
    numbers through [int2buffer]) and hands its encoding to the transport
    under the code STATUS, as the first effect and once, whatever the
    negotiation check does next; the peer record is not touched.  When no
    peer record is stored yet, that is all the call does. *)
Theorem sendStatus_first_call (status : status_arg) (s : LES) :
  _status s = None ->
  let l := built_record s status in
  let r := sendStatus status s in
  _status (final r) = Some l
  /\ _peerStatus (final r) = _peerStatus s
  /\ sent (effects r) = [(STATUS, rlp_encode l)]
  /\ (exists rest, effects r = Send STATUS (rlp_encode l) :: rest)
  /\ (_peerStatus s = None ->
      r = {| res := Return tt;
             final := set_status (Some l) s;
             effects := [Send STATUS (rlp_encode l)] |}).
Proof.
  intros Hl. cbv zeta.
  destruct (sendStatus_stores status s Hl) as [Fs Fp].
  split; [exact Fs|]. split; [exact Fp|].
  rewrite (sendStatus_first status s Hl). cbv zeta. cbn [effects].
  split; [|split].
  - cbn [sent]. now rewrite (proj1 (handleStatus_silent _)).
  - now eexists.
  - intros Hp. rewrite handleStatus_absent by (now right). reflexivity.
Qed.

(** The log string of a record that is not a list of six items: a
    TypeError or a RangeError. *)
Lemma getStatusString_short (p : item) (s : LES) :
  ~ six_items p ->
  (forall x, index p 5 <> Item x)
  /\ (_getStatusString p s = throw TypeError s
      \/ _getStatusString p s = throw RangeError s).
Proof.
  intros Hshort. destruct p as [b | l].
  - split.
    + intros x. unfold index. destruct (nth_error b 5); discriminate.
    + destruct b as [|b0 [|b1 [|b2 [|b3 b]]]];
        first [left; reflexivity | right; reflexivity].
  - destruct l as [|a [|b [|c [|d [|e [|f rest]]]]]];
      try (split; [intros x; discriminate|];
           repeat match goal with i : item |- _ => destruct i end;
           first [left; reflexivity | right; reflexivity]).
    exfalso. apply Hshort. now exists a, b, c, d, e, f, rest.
Qed.

(** A local record of six Buffers fails a comparison against any record
    without an item at index 5. *)
Lemma mismatch_without_genesis (l p : item) :
  local_record l -> (forall x, index p 5 <> Item x) ->
  first_mismatch l p <> None.
Proof.
  intros Hl Hx Hnone. apply (first_mismatch_none l p Hl) in Hnone.
  destruct Hnone as (_ & _ & K5).
  destruct Hl as (v & n & td & hash & num & gen & ->).
  apply (Hx (Buf gen)). now rewrite <- K5.
Qed.

(** X9: a first STATUS message whose decoded payload is not a list of at
    least six items is stored as the peer record all the same, and the call
    then throws a TypeError or a RangeError while building the log string,
    before the negotiation check: the timer is not cleared, nothing is
    emitted.  From then on the session never emits a ['status'] event. *)
Theorem short_status_record_stored
    (data : bytes) (payload : item) (s : LES) (ops : list op) :
  rlp_decode data = Some payload ->
  _peerStatus s = None ->
  ~ six_items payload ->
  recorded s ->
  let r := _handleMessage STATUS data s in
  (res r = Throw TypeError \/ res r = Throw RangeError)
  /\ final r = set_peerStatus (Some payload) s
  /\ effects r = []
  /\ status_events (snd (run ops (final r))) = [].
Proof.
  intros Hd Hp Hshort Hrec. cbv zeta.
  set (s1 := set_peerStatus (Some payload) s).
  destruct (getStatusString_short payload s1 Hshort) as [Hx Hthrow].
  assert (Hr : _handleMessage STATUS data s = throw TypeError s1
               \/ _handleMessage STATUS data s = throw RangeError s1).
  { unfold _handleMessage. rewrite Hd.
    change (STATUS =? STATUS) with true.
    cbv [lift bind ret get assertEq modify]. rewrite Hp.
    cbn [nullable equal_values]. fold s1.
    destruct Hthrow as [-> | ->]; [left | right]; reflexivity. }
  assert (Hfinal : final (_handleMessage STATUS data s) = s1
                   /\ effects (_handleMessage STATUS data s) = [])
    by (destruct Hr as [-> | ->]; now split).
  destruct Hfinal as [Hf He].
  split; [destruct Hr as [-> | ->]; [now left | now right]|].
  split; [exact Hf|]. split; [exact He|].
  rewrite Hf.
  assert (Hinv : handshake_inv s1 []).
  { unfold handshake_inv. split; [exact Hrec|]. split; [|split].
    - cbn [s1 set_peerStatus _status _peerStatus].
      destruct (_status s) as [l|] eqn:Hl; [|reflexivity].
      pose proof (mismatch_without_genesis l payload (Hrec l Hl) Hx).
      now destruct (first_mismatch l payload).
    - cbn. lia.
    - reflexivity. }
  destruct (inv_run ops s1 [] Hinv) as (Hrec' & Hev & _).
  cbn [app] in Hev.
  destruct (records_kept ops s1) as (_ & _ & [K | K]);
    [discriminate K|].
  rewrite K in Hev. cbn [s1 set_peerStatus _peerStatus] in Hev.
  destruct (_status (fst (run ops s1))) as [l|] eqn:Hl; [|exact Hev].
  pose proof (mismatch_without_genesis l payload (Hrec' l Hl) Hx).
  now destruct (first_mismatch l payload).
Qed.

(** X10: for a code other than STATUS the two [switch] statements accept
    the same codes: a received message of that code reaches the listeners
    exactly when [sendMessage] would send the code, at the same version.  The
    receiver drops in silence what the sender refuses with an error. *)
Theorem receive_accepts_what_send_accepts
    (code : Z) (data : bytes) (payload payload' : item) (s : LES) :
  code <> STATUS ->
  rlp_decode data = Some payload ->
  (effects (_handleMessage code data s) = [EmitMessage code payload]
   <-> res (sendMessage code payload' s) = Return tt)
  /\ (effects (_handleMessage code data s) = []
      <-> exists err, res (sendMessage code payload' s) = Throw err).
Proof.
  intros Hc Hd. apply Z.eqb_neq in Hc.
  rewrite (handleMessage_unfold code data payload s Hc Hd).
  rewrite sendMessage_unfold. cbn [res effects].
  pose proof (send_outcome_allowed (_version s) code) as Ha.
  rewrite Hc in Ha. cbn [negb] in Ha. rewrite andb_true_r in Ha.
  destruct (isCodeAllowed (_version s) code).
  - rewrite (proj1 Ha eq_refl). split; split; trivial; try discriminate.
    intros [err K]. discriminate K.
  - destruct (send_outcome (_version s) code) as [[]|err].
    + now discriminate (proj2 Ha eq_refl).
    + split; split; trivial; try discriminate. intros _. now exists err.
Qed.

(** X11: what one session sends, a session of the same or a later version
    surfaces unchanged.  If [sendMessage] accepts a code and a payload that
    the codec round-trips, then the bytes it hands to the transport, received
    under that code by a session whose version is not lower, fire one
    ['message'] event with the same code and payload. *)
Theorem sent_message_is_received
    (code : Z) (payload : item) (s s' : LES) :
  rlp_decode (rlp_encode payload) = Some payload ->
  _version s <= _version s' ->
  res (sendMessage code payload s) = Return tt ->
  effects (sendMessage code payload s) = [Send code (rlp_encode payload)]
  /\ _handleMessage code (rlp_encode payload) s'
     = {| res := Return tt; final := s';
          effects := [EmitMessage code payload] |}.
Proof.
  intros Hrt Hv. rewrite sendMessage_unfold. cbn [res effects]. intros Hs.
  rewrite Hs. split; [reflexivity|].
  destruct (send_outcome_returns _ _ Hs) as (m & Hm & Hle & _).
  assert (Hc : (code =? STATUS) = false).
  { unfold send_outcome in Hs. now destruct (code =? STATUS). }
  rewrite (handleMessage_unfold code _ payload s' Hc Hrt).
  unfold isCodeAllowed. rewrite Hm.
  destruct (Z.leb_spec m (_version s')); [reflexivity | lia].
Qed.

(** *** Two peers *)

(** A first STATUS message stores its decoded payload as the peer record and
    leaves the local record and the version alone. *)
Lemma receive_status_stores (data : bytes) (payload : item) (s : LES) :
  rlp_decode data = Some payload ->
  _peerStatus s = None ->
  _peerStatus (final (_handleMessage STATUS data s)) = Some payload
  /\ _status (final (_handleMessage STATUS data s)) = _status s
  /\ _version (final (_handleMessage STATUS data s)) = _version s.
Proof.
  intros Hd Hp.
  destruct (receive_status_first data payload s Hd Hp)
    as [(_ & err & ->) | ->].
  - now repeat split.
  - destruct (handleStatus_frame (set_peerStatus (Some payload) s))
      as (-> & -> & -> & _).
    now repeat split.
Qed.

(** The records a session of version [v] holds after it has called
    [sendStatus b] and received the STATUS message of a peer of the same
    version that called [sendStatus a], in either order. *)
Lemma exchange_records (v : Z) (a b : status_arg) (ops : list op) :
  rlp_decode (rlp_encode (built_record (new_LES v) a))
  = Some (built_record (new_LES v) a) ->
  ops = [SendStatus b;
         Receive STATUS (rlp_encode (built_record (new_LES v) a))]
  \/ ops = [Receive STATUS (rlp_encode (built_record (new_LES v) a));
            SendStatus b] ->
  _status (fst (run ops (new_LES v))) = Some (built_record (new_LES v) b)
  /\ _peerStatus (fst (run ops (new_LES v)))
     = Some (built_record (new_LES v) a).
Proof.
  intros Hrt [-> | ->]; rewrite !run_cons; cbn [run fst step].
  - destruct (sendStatus_stores b (new_LES v) eq_refl) as [Fs Fp].
    destruct (receive_status_stores _ _ (final (sendStatus b (new_LES v)))
                Hrt Fp) as (Rp & Rs & _).
    now rewrite Rp, Rs, Fs.
  - destruct (receive_status_stores _ _ (new_LES v) Hrt eq_refl)
      as (Rp & Rs & Rv).
    destruct (sendStatus_stores b _ Rs) as [Fs Fp].
    rewrite Fs, Fp, Rp. split; [|reflexivity].
    f_equal. unfold built_record at 1 3. now rewrite Rv.
Qed.

(** X12: two sessions of the same version whose applications announce the
    same network id and genesis hash negotiate, whichever comes first on a side:
    its own [sendStatus] or the STATUS message of the other.  The side that
    called [sendStatus b] emits exactly one ['status'] event, carrying what the
    other passed to [sendStatus a]: its network id through [int2buffer], its
    head weight, head hash, head number and genesis hash.  The codec must
    round-trip the record. *)
Theorem handshake_between_peers (v : Z) (a b : status_arg) (ops : list op) :
  rlp_decode (rlp_encode (built_record (new_LES v) a))
  = Some (built_record (new_LES v) a) ->
  arg_networkId a = arg_networkId b ->
  arg_genesisHash a = arg_genesisHash b ->
  ops = [SendStatus b;
         Receive STATUS (rlp_encode (built_record (new_LES v) a))]
  \/ ops = [Receive STATUS (rlp_encode (built_record (new_LES v) a));
            SendStatus b] ->
  status_events (snd (run ops (new_LES v)))
  = [{| networkId := Item (Buf (int2buffer (arg_networkId a)));
        headTd := arg_headTd a;
        headHash := arg_headHash a;
        headNum := arg_headNum a;
        genesisHash := arg_genesisHash a |}].
Proof.
  intros Hrt Hn Hg Hops.
  destruct (exchange_records v a b ops Hrt Hops) as [Hl Hp].
  destruct (inv_reachable v ops) as (_ & Hev & _).
  rewrite Hl, Hp in Hev.
  assert (Hm : first_mismatch (built_record (new_LES v) b)
                              (built_record (new_LES v) a) = None).
  { apply first_mismatch_none; [apply built_record_local|].
    unfold built_record. cbn [index nth_error]. now rewrite Hn, Hg. }
  rewrite Hm in Hev. destruct Hev as (e & -> & Hsum).
  destruct e as [nid td hash num gen].
  unfold summary_of, built_record in Hsum.
  cbn [index nth_error carried networkId headTd headHash headNum genesisHash]
    in Hsum.
  destruct Hsum as (-> & -> & -> & -> & ->). reflexivity.
Qed.


(** *** Names of the codes *)

(** X14: [getMsgPrefix] maps the code of every key of [MESSAGE_CODES] back
    to that key: no two keys share a code. *)
Theorem getMsgPrefix_of_entry (key : string) (code : Z) :
  In (key, code) MESSAGE_CODES_entries ->
  getMsgPrefix code = Some key.
Proof.
  unfold MESSAGE_CODES_entries. cbn [In]. intros Hin.
  repeat (destruct Hin as [[= <- <-] | Hin]; [reflexivity|]).
  contradiction.
Qed.

Lemma getMsgPrefix_none (code : Z) :
  getMsgPrefix code = None
  <-> (code =? STATUS) = false
      /\ case_in code les1_cases = false
      /\ case_in code les2_cases = false.
Proof.
  cbv [getMsgPrefix find MESSAGE_CODES_entries snd
       case_in les1_cases les2_cases existsb
       STATUS ANNOUNCE GET_BLOCK_HEADERS BLOCK_HEADERS GET_BLOCK_BODIES
       BLOCK_BODIES GET_RECEIPTS RECEIPTS GET_PROOFS PROOFS
       GET_CONTRACT_CODES CONTRACT_CODES GET_HEADER_PROOFS HEADER_PROOFS
       SEND_TX GET_PROOFS_V2 PROOFS_V2 GET_HELPER_TRIE_PROOFS
       HELPER_TRIE_PROOFS SEND_TX_V2 GET_TX_STATUS TX_STATUS].
  repeat match goal with
         | |- context [?k =? code] => rewrite (Z.eqb_sym k code)
         end.
  repeat match goal with
         | |- context [code =? ?k] =>
             destruct (code =? k);
             [ solve [ cbn [option_map orb];
                       split; [discriminate
                              | intros (A & B & C);
                                first [discriminate A | discriminate B
                                      | discriminate C] ] ]
             | cbn [orb] ]
         end.
  cbn [option_map]. now repeat split.
Qed.

(** X15: [getMsgPrefix] names exactly the codes the [switch] of
    [sendMessage] has a case for: it returns [undefined] for a code if and
    only if [sendMessage] throws 'Unknown code' for it. *)
Theorem getMsgPrefix_unknown (code : Z) (payload : item) (s : LES) :
  getMsgPrefix code = None
  <-> res (sendMessage code payload s) = Throw (ErrUnknownCode code).
Proof.
  rewrite getMsgPrefix_none. unfold sendMessage.
  destruct (code =? STATUS); [split; [intros (K & _) | ]; discriminate|].
  destruct (case_in code les1_cases).
  { cbv [bind get call throw]. cbn [version les].
    destruct (_version s >=? 1); split; try discriminate;
      intros (_ & K & _); discriminate. }
  destruct (case_in code les2_cases).
  { cbv [bind get call throw]. cbn [version les2].
    destruct (_version s >=? 2); split; try discriminate;
      intros (_ & _ & K); discriminate. }
  cbn [throw res]. now repeat split.
Qed.

(** *** The timer and the rest of the session *)

(** The log string does not depend on the session. *)
Lemma getStatusString_pure (p : item) :
  exists o, forall s,
    _getStatusString p s = {| res := o; final := s; effects := [] |}.
Proof.
  destruct p as [b | l].
  - destruct b as [|b0 [|b1 [|b2 [|b3 b]]]]; eexists; intros s; reflexivity.
  - destruct l as [|a [|b [|c [|d [|e [|f rest]]]]]];
      repeat match goal with i : item |- _ => destruct i end;
      eexists; intros s; reflexivity.
Qed.

(** The negotiation check does not read the timer. *)
Lemma handleStatus_timer_blind (t : timer) (s : LES) :
  res (_handleStatus (set_timer t s)) = res (_handleStatus s)
  /\ effects (_handleStatus (set_timer t s)) = effects (_handleStatus s)
  /\ exists t', final (_handleStatus (set_timer t s))
                = set_timer t' (final (_handleStatus s)).
Proof.
  unfold _handleStatus. run_monad.
  cbn [set_timer _status _peerStatus _statusTimeoutId].
  destruct (_status s) as [l|];
    [|repeat split; now exists t].
  destruct (_peerStatus s) as [p|];
    [|repeat split; now exists t].
  repeat match goal with
         | |- context [equal_values ?a ?b] => destruct (equal_values a b)
         end;
    try (repeat split; now exists (clearTimeout t)).
  unfold Buffer_from.
  destruct (index p 2) as [| | ? | [?|?]];
    try (repeat split; now exists (clearTimeout t)).
  all: destruct (index p 3) as [| | ? | [?|?]];
    try (repeat split; now exists (clearTimeout t)).
  all: destruct (index p 4) as [| | ? | [?|?]];
    try (repeat split; now exists (clearTimeout t)).
  all: destruct (index p 5) as [| | ? | [?|?]];
    try (repeat split; now exists (clearTimeout t)).
Qed.

Lemma without_disconnects_app (a b : list effect) :
  without_disconnects (a ++ b)
  = without_disconnects a ++ without_disconnects b.
Proof. apply filter_app. Qed.

(** An event on two sessions that differ in the timer only: the same
    outcome unless the event is the expiry itself, the same effects apart from
    the disconnect request, and again two sessions that differ in the timer
    only. *)
Lemma step_timer_blind (o : op) (t : timer) (s : LES) :
  without_disconnects (effects (step o (set_timer t s)))
  = without_disconnects (effects (step o s))
  /\ exists t', final (step o (set_timer t s))
                = set_timer t' (final (step o s)).
Proof.
  destruct o as [code data | status | code payload | ]; cbn [step].
  - (* _handleMessage *)
    destruct (rlp_decode data) as [payload|] eqn:Hd.
    2:{ rewrite !(receive_malformed code data _ Hd).
        split; [reflexivity | now exists t]. }
    destruct (code =? STATUS) eqn:Hc.
    + apply Z.eqb_eq in Hc. subst code.
      destruct (_peerStatus s) as [p|] eqn:Hp.
      { rewrite (receive_status_again data payload p s Hd Hp).
        rewrite (receive_status_again data payload p (set_timer t s) Hd Hp).
        split; [reflexivity | now exists t]. }
      destruct (getStatusString_pure payload) as [o Ho].
      destruct (handleStatus_timer_blind t (set_peerStatus (Some payload) s))
        as (Hr & He & t' & Hf).
      unfold _handleMessage. rewrite Hd.
      change (STATUS =? STATUS) with true.
      cbv [lift bind ret get assertEq modify throw].
      cbn [set_timer _peerStatus]. rewrite Hp.
      cbn [nullable equal_values]. rewrite !Ho.
      destruct o as [[]|err]; [|split; [reflexivity | now exists t]].
      change (set_peerStatus (Some payload) (set_timer t s))
        with (set_timer t (set_peerStatus (Some payload) s)).
      destruct (_handleStatus (set_timer t (set_peerStatus (Some payload) s)))
        as [r1 f1 e1].
      destruct (_handleStatus (set_peerStatus (Some payload) s))
        as [r2 f2 e2].
      cbn [res final effects app] in *. subst.
      split; [reflexivity | now exists t'].
    + rewrite !(handleMessage_unfold code data payload _ Hc Hd).
      cbn [final effects set_timer _version].
      split; [reflexivity | now exists t].
  - (* sendStatus *)
    destruct (_status s) as [l|] eqn:Hl.
    { rewrite (sendStatus_again status s l Hl).
      rewrite (sendStatus_again status (set_timer t s) l Hl).
      split; [reflexivity | now exists t]. }
    rewrite (sendStatus_first status s Hl).
    rewrite (sendStatus_first status (set_timer t s) Hl).
    cbv zeta. cbn [final effects].
    change (built_record (set_timer t s) status)
      with (built_record s status).
    change (set_status (Some (built_record s status)) (set_timer t s))
      with (set_timer t (set_status (Some (built_record s status)) s)).
    destruct (handleStatus_timer_blind t
                (set_status (Some (built_record s status)) s))
      as (_ & He & t' & Hf).
    rewrite He, Hf. split; [reflexivity | now exists t'].
  - (* sendMessage *)
    rewrite !sendMessage_unfold. cbn [final effects set_timer _version].
    split; [reflexivity | now exists t].
  - (* the timer callback *)
    unfold statusTimeout. run_monad. cbn [set_timer _statusTimeoutId].
    destruct t, (_statusTimeoutId s); cbn [final effects];
      (split; [reflexivity|]); eexists; reflexivity.
Qed.

(** X16: the timer decides nothing but the disconnect request.  Two
    sessions that differ in the timer only go through any execution with the
    same records at the end and the same effects apart from disconnect
    requests.  In particular the expiry of the timer does not close the
    handshake: the records and the ['status'] event of a later exchange are
    those of a session whose timer never expired. *)
Theorem timer_decides_only_disconnect (ops : list op) (t : timer) (s : LES) :
  _status (fst (run ops (set_timer t s))) = _status (fst (run ops s))
  /\ _peerStatus (fst (run ops (set_timer t s)))
     = _peerStatus (fst (run ops s))
  /\ without_disconnects (snd (run ops (set_timer t s)))
     = without_disconnects (snd (run ops s))
  /\ status_events (snd (run ops (final (statusTimeout s))))
     = status_events (snd (run ops s)).
Proof.
  assert (Hgen : forall ops t s,
             (exists t', fst (run ops (set_timer t s))
                         = set_timer t' (fst (run ops s)))
             /\ without_disconnects (snd (run ops (set_timer t s)))
                = without_disconnects (snd (run ops s))).
  { clear. intros ops. induction ops as [|o ops IH]; intros t s.
    - cbn. split; [now exists t | reflexivity].
    - rewrite !run_cons. cbn [fst snd].
      destruct (step_timer_blind o t s) as (He & t1 & Hf).
      rewrite Hf. destruct (IH t1 (final (step o s))) as ((t2 & Hs) & Ho).
      split; [now exists t2|].
      now rewrite !without_disconnects_app, He, Ho. }
  assert (Hev : forall out out',
             without_disconnects out = without_disconnects out' ->
             status_events out = status_events out').
  { assert (Hw : forall out,
               status_events (without_disconnects out) = status_events out).
    { unfold without_disconnects.
      induction out as [|e out IH]; [reflexivity|].
      destruct e; cbn [filter status_events]; try assumption.
      now rewrite IH. }
    intros out out' Heq.
    transitivity (status_events (without_disconnects out));
      [symmetry; apply Hw | rewrite Heq; apply Hw]. }
  destruct (Hgen ops t s) as ((t' & Hs) & Ho).
  rewrite Hs. cbn [set_timer _status _peerStatus].
  split; [reflexivity|]. split; [reflexivity|]. split; [exact Ho|].
  apply Hev.
  assert (Hfire : exists t0, final (statusTimeout s) = set_timer t0 s).
  { unfold statusTimeout. run_monad.
    destruct (_statusTimeoutId s) eqn:Et; cbn [final].
    - now exists Fired.
    - exists Cleared. destruct s; cbn in *; now subst.
    - exists Fired. destruct s; cbn in *; now subst. }
  destruct Hfire as [t0 ->]. apply Hgen.
Qed.

End Lifetime.

(* ================================================================== *)
(** ** The statements on the sample session *)

Import Sample.
#[local] Existing Instance collaborators.

(** C1 on a session of network 1 facing a peer of network 2. *)
Lemma handleStatus_rejects_mismatch_witness :
  _status mismatched = Some (status_record 1 1)
  /\ _peerStatus mismatched = Some (status_record 1 2)
  /\ local_record (status_record 1 1)
  /\ index (status_record 1 1) 1 <> index (status_record 1 2) 1
  /\ (exists c,
         In c status_checks
         /\ index (status_record 1 1) (fst c) <> index (status_record 1 2) (fst c)
         /\ res (_handleStatus mismatched) = Throw (AssertionError (snd c)))
  /\ status_events (effects (_handleStatus mismatched)) = []
  /\ forall ops,
      status_events (snd (run ops (final (_handleStatus mismatched)))) = [].
Proof.
  assert (Hne : index (status_record 1 1) 1 <> index (status_record 1 2) 1)
    by (vm_compute; discriminate).
  split; [reflexivity|]. split; [reflexivity|].
  split; [unfold local_record, status_record; repeat eexists|].
  split; [exact Hne|].
  apply (handleStatus_rejects_mismatch mismatched
           (status_record 1 1) (status_record 1 2)).
  - reflexivity.
  - reflexivity.
  - unfold local_record, status_record; repeat eexists.
  - right; left; exact Hne.
Defined.

(** C2: a second STATUS message on a session that holds a peer record. *)
Lemma second_status_rejected_witness :
  rlp_decode (status_message 2) = Some (status_record 1 2)
  /\ _peerStatus peer_received = Some (status_record 1 1)
  /\ res (_handleMessage STATUS (status_message 2) peer_received)
     = Throw (AssertionError "Uncontrolled status message")
  /\ _peerStatus (final (_handleMessage STATUS (status_message 2) peer_received))
     = Some (status_record 1 1)
  /\ final (_handleMessage STATUS (status_message 2) peer_received)
     = peer_received
  /\ effects (_handleMessage STATUS (status_message 2) peer_received) = [].
Proof.
  split; [vm_compute; reflexivity|]. split; [reflexivity|].
  apply (second_status_rejected (status_message 2)
           (status_record 1 2) (status_record 1 1) peer_received).
  - vm_compute; reflexivity.
  - reflexivity.
Defined.

(** C2 as stated fails: a session that holds a peer record receives a
    second STATUS message whose payload is truncated (the bytes c3 01).  The
    call fails, and the peer record stays, but the error is the decoding
    error of the first line of [_handleMessage], not 'Uncontrolled status
    message': the guard is never reached. *)
Lemma second_status_malformed :
  _peerStatus peer_received = Some (status_record 1 1)
  /\ rlp_decode malformed = None
  /\ res (_handleMessage STATUS malformed peer_received) = Throw DecodeError
  /\ res (_handleMessage STATUS malformed peer_received)
     <> Throw (AssertionError "Uncontrolled status message")
  /\ _peerStatus (final (_handleMessage STATUS malformed peer_received))
     = Some (status_record 1 1).
Proof.
  vm_compute. repeat split; discriminate.
Qed.

(** C3: a second [sendStatus]. *)
Lemma sendStatus_once_witness :
  _status local_sent = Some (status_record 1 1)
  /\ res (sendStatus local_status local_sent) = Return tt
  /\ _status (final (sendStatus local_status local_sent))
     = Some (status_record 1 1)
  /\ final (sendStatus local_status local_sent) = local_sent
  /\ sent (effects (sendStatus local_status local_sent)) = []
  /\ effects (sendStatus local_status local_sent) = [].
Proof.
  split; [reflexivity|].
  apply (sendStatus_once local_status local_sent (status_record 1 1)).
  reflexivity.
Defined.

(** C4 as the code has it, on the mismatching session. *)
Lemma deadline_cleared_before_comparison_witness :
  _status mismatched = Some (status_record 1 1)
  /\ _peerStatus mismatched = Some (status_record 1 2)
  /\ (_statusTimeoutId (new_LES 1) = Armed
      /\ (clear_calls
            (snd (run [SendStatus local_status; Receive STATUS (status_message 2)]
                      (new_LES 1))) <= 1)%nat)
  /\ _statusTimeoutId (final (_handleStatus mismatched))
     = clearTimeout (_statusTimeoutId mismatched)
  /\ _statusTimeoutId (final (_handleStatus mismatched)) <> Armed
  /\ exists rest,
      effects (_handleStatus mismatched) = ClearTimeout :: rest
      /\ clear_calls rest = 0%nat.
Proof.
  split; [reflexivity|]. split; [reflexivity|].
  apply (deadline_cleared_before_comparison 1
           [SendStatus local_status; Receive STATUS (status_message 2)]
           mismatched (status_record 1 1) (status_record 1 2));
    reflexivity.
Defined.

(** C4 as stated fails: a version-1 session sends its status (network 1),
    the timer pending, then receives the status of a peer on network 2.  The
    negotiation check runs and throws 'NetworkId mismatch', and the timer has
    been cleared: it does not remain pending. *)
Lemma deadline_disarmed_on_mismatch :
  fst (run [SendStatus local_status] (new_LES 1)) = local_sent
  /\ _statusTimeoutId local_sent = Armed
  /\ res (_handleMessage STATUS (status_message 2) local_sent)
     = Throw (AssertionError "NetworkId mismatch")
  /\ effects (_handleMessage STATUS (status_message 2) local_sent)
     = [ClearTimeout]
  /\ _statusTimeoutId (final (_handleMessage STATUS (status_message 2) local_sent))
     = Cleared
  /\ _statusTimeoutId (final (_handleMessage STATUS (status_message 2) local_sent))
     <> Armed.
Proof.
  vm_compute. repeat split; discriminate.
Qed.

(** C6: a version-1 session receives GET_PROOFS_V2 (0x0f), a version-2 code:
    the message is dropped. *)
Lemma handleMessage_dispatch_witness :
  GET_PROOFS_V2 <> STATUS
  /\ rlp_decode (encode (Arr [])) = Some (Arr [])
  /\ res (_handleMessage GET_PROOFS_V2 (encode (Arr [])) local_sent) = Return tt
  /\ final (_handleMessage GET_PROOFS_V2 (encode (Arr [])) local_sent)
     = local_sent
  /\ effects (_handleMessage GET_PROOFS_V2 (encode (Arr [])) local_sent)
     = (if isCodeAllowed (_version local_sent) GET_PROOFS_V2
        then [EmitMessage GET_PROOFS_V2 (Arr [])] else []).
Proof.
  split; [discriminate|]. split; [reflexivity|].
  apply (handleMessage_dispatch GET_PROOFS_V2 (encode (Arr [])) (Arr [])
           local_sent).
  - discriminate.
  - reflexivity.
Defined.

(** C7: ANNOUNCE, accepted at version 1, is accepted at version 2. *)
Lemma sendMessage_monotone_witness :
  res (sendMessage ANNOUNCE (Arr []) (new_LES 1)) = Return tt
  /\ (forall payload' s',
         _version s' = _version (new_LES 1) + 1 ->
         res (sendMessage ANNOUNCE payload' s') = Return tt)
  /\ exists m,
      min_version code_table ANNOUNCE = Some m
      /\ forall payload' s',
          res (sendMessage ANNOUNCE payload' s') = Return tt
          <-> m <= _version s'.
Proof.
  split; [reflexivity|].
  apply (sendMessage_monotone ANNOUNCE (Arr []) (new_LES 1)).
  reflexivity.
Defined.

(** C8: both sides on network 1. *)
Lemma status_event_once_witness :
  _status (fst (run [SendStatus local_status; Receive STATUS (status_message 1)]
                    (new_LES 1))) = Some (status_record 1 1)
  /\ _peerStatus
       (fst (run [SendStatus local_status; Receive STATUS (status_message 1)]
                 (new_LES 1))) = Some (status_record 1 1)
  /\ index (status_record 1 1) 0 = index (status_record 1 1) 0
  /\ index (status_record 1 1) 1 = index (status_record 1 1) 1
  /\ index (status_record 1 1) 5 = index (status_record 1 1) 5
  /\ exists e,
      status_events
        (snd (run [SendStatus local_status; Receive STATUS (status_message 1)]
                  (new_LES 1))) = [e]
      /\ summary_of (status_record 1 1) e.
Proof.
  split; [vm_compute; reflexivity|]. split; [vm_compute; reflexivity|].
  split; [reflexivity|]. split; [reflexivity|]. split; [reflexivity|].
  apply (status_event_once 1
           [SendStatus local_status; Receive STATUS (status_message 1)]
           (status_record 1 1) (status_record 1 1));
    try reflexivity; vm_compute; reflexivity.
Defined.

(** C10: a truncated payload under an unknown code. *)
Lemma handleMessage_decodes_first_witness :
  rlp_decode malformed = None
  /\ _handleMessage 0x16 malformed local_sent
     = {| res := Throw DecodeError; final := local_sent; effects := [] |}.
Proof.
  split; [reflexivity|].
  apply (handleMessage_decodes_first 0x16 malformed local_sent).
  reflexivity.
Defined.

(** Scenarios of section 8 of the specification. *)
Example v2_sends_GET_TX_STATUS :
  effects (sendMessage GET_TX_STATUS (Arr []) (new_LES 2))
  = [Send 0x14 (encode (Arr []))].
Proof. reflexivity. Qed.

Example v1_refuses_GET_TX_STATUS :
  sendMessage GET_TX_STATUS (Arr []) (new_LES 1)
  = throw (ErrNotAllowed 0x14 1) (new_LES 1).
Proof. reflexivity. Qed.

Example timeout_disconnects_once :
  snd (run [TimerExpires; TimerExpires] (new_LES 1)) = [Disconnect TIMEOUT].
Proof. reflexivity. Qed.

(** *** The statements on executions, on the sample session *)

(** X2 on a version-1 session that sends its status and two messages. *)
Lemma sent_codes_allowed_witness :
  1 <= _version (new_LES 1)
  /\ Forall (fun m => isCodeAllowed (_version (new_LES 1)) (fst m) = true)
            (sent (snd (run [SendStatus local_status;
                             SendMessage GET_BLOCK_HEADERS (Arr []);
                             SendMessage GET_TX_STATUS (Arr [])]
                            (new_LES 1)))).
Proof.
  split; [discriminate|].
  apply (sent_codes_allowed
           [SendStatus local_status;
            SendMessage GET_BLOCK_HEADERS (Arr []);
            SendMessage GET_TX_STATUS (Arr [])] (new_LES 1)).
  discriminate.
Defined.

(** X6 on the mismatching session: the timer expires after the check. *)
Lemma no_disconnect_after_check_witness :
  _status mismatched = Some (status_record 1 1)
  /\ _peerStatus mismatched = Some (status_record 1 2)
  /\ disconnects
       (snd (run [TimerExpires] (final (_handleStatus mismatched)))) = 0%nat.
Proof.
  split; [reflexivity|]. split; [reflexivity|].
  apply (no_disconnect_after_check [TimerExpires] mismatched
           (status_record 1 1) (status_record 1 2)); reflexivity.
Defined.

(** X7 on the exchange between two sessions on network 1. *)
Lemma status_event_only_on_match_witness :
  In local_summary
     (status_events
        (snd (run [SendStatus local_status; Receive STATUS (status_message 1)]
                  (new_LES 1))))
  /\ exists l p,
      _status
        (fst (run [SendStatus local_status; Receive STATUS (status_message 1)]
                  (new_LES 1))) = Some l
      /\ _peerStatus
           (fst (run [SendStatus local_status;
                      Receive STATUS (status_message 1)]
                     (new_LES 1))) = Some p
      /\ index l 0 = index p 0
      /\ index l 1 = index p 1
      /\ index l 5 = index p 5
      /\ summary_of p local_summary
      /\ status_events
           (snd (run [SendStatus local_status;
                      Receive STATUS (status_message 1)]
                     (new_LES 1))) = [local_summary].
Proof.
  assert (Hin : In local_summary
                   (status_events
                      (snd (run [SendStatus local_status;
                                 Receive STATUS (status_message 1)]
                                (new_LES 1)))))
    by (vm_compute; left; reflexivity).
  split; [exact Hin|].
  exact (status_event_only_on_match 1
           [SendStatus local_status; Receive STATUS (status_message 1)]
           local_summary Hin).
Defined.

(** X8 on a fresh version-1 session. *)
Lemma sendStatus_first_call_witness :
  _status (new_LES 1) = None
  /\ _status (final (sendStatus local_status (new_LES 1)))
     = Some (built_record (new_LES 1) local_status)
  /\ _peerStatus (final (sendStatus local_status (new_LES 1)))
     = _peerStatus (new_LES 1)
  /\ sent (effects (sendStatus local_status (new_LES 1)))
     = [(STATUS, rlp_encode (built_record (new_LES 1) local_status))]
  /\ (exists rest,
         effects (sendStatus local_status (new_LES 1))
         = Send STATUS (rlp_encode (built_record (new_LES 1) local_status))
             :: rest)
  /\ (_peerStatus (new_LES 1) = None ->
      sendStatus local_status (new_LES 1)
      = {| res := Return tt;
           final := set_status
                      (Some (built_record (new_LES 1) local_status))
                      (new_LES 1);
           effects :=
             [Send STATUS
                (rlp_encode (built_record (new_LES 1) local_status))] |}).
Proof.
  split; [reflexivity|].
  apply (sendStatus_first_call local_status (new_LES 1)). reflexivity.
Defined.

(** X9: a STATUS message with one field reaches a session that has sent its
    status. *)
Lemma short_status_record_stored_witness :
  rlp_decode short_status = Some (Arr [Buf []])
  /\ _peerStatus local_sent = None
  /\ ~ six_items (Arr [Buf []])
  /\ recorded local_sent
  /\ (res (_handleMessage STATUS short_status local_sent) = Throw TypeError
      \/ res (_handleMessage STATUS short_status local_sent)
         = Throw RangeError)
  /\ final (_handleMessage STATUS short_status local_sent)
     = set_peerStatus (Some (Arr [Buf []])) local_sent
  /\ effects (_handleMessage STATUS short_status local_sent) = []
  /\ status_events
       (snd (run [Receive STATUS (status_message 1)]
                 (final (_handleMessage STATUS short_status local_sent))))
     = [].
Proof.
  assert (Hshort : ~ six_items (Arr [Buf []])).
  { intros (a & b & c & d & e & f & rest & K). discriminate K. }
  assert (Hrec : recorded local_sent).
  { intros l [= <-]. unfold local_record, status_record. repeat eexists. }
  split; [reflexivity|]. split; [reflexivity|].
  split; [exact Hshort|]. split; [exact Hrec|].
  apply (short_status_record_stored short_status (Arr [Buf []]) local_sent
           [Receive STATUS (status_message 1)]);
    [reflexivity | reflexivity | exact Hshort | exact Hrec].
Defined.

(** X10 on GET_TX_STATUS at version 1: dropped on receipt, refused on
    sending. *)
Lemma receive_accepts_what_send_accepts_witness :
  GET_TX_STATUS <> STATUS
  /\ rlp_decode (encode (Arr [])) = Some (Arr [])
  /\ (effects (_handleMessage GET_TX_STATUS (encode (Arr [])) local_sent)
      = [EmitMessage GET_TX_STATUS (Arr [])]
      <-> res (sendMessage GET_TX_STATUS (Arr []) local_sent) = Return tt)
  /\ (effects (_handleMessage GET_TX_STATUS (encode (Arr [])) local_sent) = []
      <-> exists err,
          res (sendMessage GET_TX_STATUS (Arr []) local_sent) = Throw err).
Proof.
  split; [discriminate|]. split; [reflexivity|].
  apply (receive_accepts_what_send_accepts GET_TX_STATUS (encode (Arr []))
           (Arr []) (Arr []) local_sent).
  - discriminate.
  - reflexivity.
Defined.

(** X11: a version-1 session announces, a version-2 session receives. *)
Lemma sent_message_is_received_witness :
  rlp_decode (rlp_encode (Arr [Buf genesis])) = Some (Arr [Buf genesis])
  /\ _version (new_LES 1) <= _version (new_LES 2)
  /\ res (sendMessage ANNOUNCE (Arr [Buf genesis]) (new_LES 1)) = Return tt
  /\ effects (sendMessage ANNOUNCE (Arr [Buf genesis]) (new_LES 1))
     = [Send ANNOUNCE (rlp_encode (Arr [Buf genesis]))]
  /\ _handleMessage ANNOUNCE (rlp_encode (Arr [Buf genesis])) (new_LES 2)
     = {| res := Return tt; final := new_LES 2;
          effects := [EmitMessage ANNOUNCE (Arr [Buf genesis])] |}.
Proof.
  split; [reflexivity|]. split; [discriminate|]. split; [reflexivity|].
  apply (sent_message_is_received ANNOUNCE (Arr [Buf genesis])
           (new_LES 1) (new_LES 2)).
  - reflexivity.
  - discriminate.
  - reflexivity.
Defined.

(** X12: the peer's STATUS message arrives before the local [sendStatus]. *)
Lemma handshake_between_peers_witness :
  rlp_decode (rlp_encode (built_record (new_LES 1) local_status))
  = Some (built_record (new_LES 1) local_status)
  /\ arg_networkId local_status = arg_networkId local_status
  /\ arg_genesisHash local_status = arg_genesisHash local_status
  /\ status_events
       (snd (run [Receive STATUS
                    (rlp_encode (built_record (new_LES 1) local_status));
                  SendStatus local_status]
                 (new_LES 1)))
     = [{| networkId := Item (Buf (int2buffer (arg_networkId local_status)));
           headTd := arg_headTd local_status;
           headHash := arg_headHash local_status;
           headNum := arg_headNum local_status;
           genesisHash := arg_genesisHash local_status |}].
Proof.
  split; [vm_compute; reflexivity|]. split; [reflexivity|].
  split; [reflexivity|].
  apply (handshake_between_peers 1 local_status local_status
           [Receive STATUS
              (rlp_encode (built_record (new_LES 1) local_status));
            SendStatus local_status]).
  - vm_compute; reflexivity.
  - reflexivity.
  - reflexivity.
  - right; reflexivity.
Defined.


(** X14 on SEND_TX, whose key comes after those of the two codes above
    it. *)
Lemma getMsgPrefix_of_entry_witness :
  In ("SEND_TX", SEND_TX) MESSAGE_CODES_entries
  /\ getMsgPrefix SEND_TX = Some "SEND_TX".
Proof.
  assert (Hin : In ("SEND_TX", SEND_TX) MESSAGE_CODES_entries)
    by (do 14 right; left; reflexivity).
  split; [exact Hin|].
  exact (getMsgPrefix_of_entry "SEND_TX" SEND_TX Hin).
Defined.
